(** * tempfile: temporary directories and files with RAII cleanup

    A shallow embedding of [src/tempfile.cpp] and
    [include/tempfile/tempfile.hpp].

    The library is written against three outside services: the filesystem
    ([std::filesystem]), the process environment ([std::getenv]) and the C
    random source ([std::rand]).  They are gathered in one [world] record
    and the C++ functions are embedded as computations over it, in a small
    state-and-exception monad: a [std::filesystem] call made through its
    throwing overload either returns or raises [filesystem_error].

    Only the [_WIN32] configuration is embedded.  In the other branch of
    [paths_to_try] the loop over the literal roots pushes [path], a name
    that is declared inside the body of the previous loop and is out of
    scope there, so that configuration does not build.

    The process-wide [std::mutex] serialises [create] and [remove] between
    threads; the embedding is sequential and the lock does not appear.
    What other processes do to the filesystem in the meantime does appear:
    the world carries a schedule of such actions, one taken before each
    filesystem call.  The world also keeps a journal of the filesystem
    calls the library makes, so that their order can be stated. *)

From Stdlib Require Import ZArith Lia String Ascii List.
From stdpp Require Import base gmap strings list fin_maps.

Local Open Scope string_scope.
Local Open Scope list_scope.

(** ** Outcomes and the monad *)

Inductive outcome (S A : Type) : Type :=
| Returned (a : A) (s : S)
| Thrown (s : S).

Arguments Returned {S A} a s.
Arguments Thrown {S A} s.

Definition M (S A : Type) : Type := S -> outcome S A.

Definition ret {S A : Type} (a : A) : M S A := fun s => Returned a s.

Definition bind {S A B : Type} (m : M S A) (k : A -> M S B) : M S B :=
  fun s => match m s with
           | Returned a s' => k a s'
           | Thrown s' => Thrown s'
           end.

Notation "x <- m ;; k" := (bind m (fun x => k))
  (at level 100, m at next level, right associativity).
Notation "m ;;; k" := (bind m (fun _ => k))
  (at level 100, right associativity).

(** A range-based [for] whose body only has effects. *)
Fixpoint for_each {S A : Type} (l : list A) (body : A -> M S unit) : M S unit :=
  match l with
  | [] => ret tt
  | x :: rest => body x ;;; for_each rest body
  end.

(** A range-based [for] whose body updates a local variable. *)
Fixpoint for_fold {S A B : Type} (l : list A) (body : B -> A -> M S B) (acc : B)
  : M S B :=
  match l with
  | [] => ret acc
  | x :: rest => acc' <- body acc x ;; for_fold rest body acc'
  end.

(** The final state of a computation, whichever way it ended. *)
Definition final {S A : Type} (o : outcome S A) : S :=
  match o with
  | Returned _ s => s
  | Thrown s => s
  end.

(** ** The world *)

(** [std::filesystem::file_type], as far as the library distinguishes. *)
Inductive file_type : Type := Directory | Regular | Other.

Global Instance file_type_eq_dec : EqDecision file_type.
Proof. solve_decision. Defined.

(** What another process may do to the namespace. *)
Inductive action : Type :=
| Idle
| ExtMkdir (p : string)
| ExtCreateFile (p : string)
| ExtRemoveAll (p : string).

(** The calls into [std::filesystem] that the library makes. *)
Inductive syscall : Type :=
| CreateDirectory (p : string)
| IsDirectory (p : string)
| Exists (p : string)
| DirectoryIterator (p : string)
| RemoveEntry (p : string)
| RemoveAll (p : string).

Record world : Type := World {
  fs : gmap string file_type;   (* the namespace: path -> type of the entry *)
  env : gmap string string;     (* the process environment *)
  entropy : nat -> N;           (* what the successive std::rand() calls draw *)
  drawn : nat;                  (* how many std::rand() calls were made *)
  others : list action;         (* other processes, one action per fs call *)
  journal : list syscall        (* the filesystem calls made so far *)
}.

Definition set_fs (m : gmap string file_type) (w : world) : world :=
  World m (env w) (entropy w) (drawn w) (others w) (journal w).

(** The world with further calls in its journal. *)
Definition noted (calls : list syscall) (w : world) : world :=
  World (fs w) (env w) (entropy w) (drawn w) (others w) (journal w ++ calls).

(** *** Platform constants ([_WIN32]) *)

Definition separator_char : ascii := "\"%char.
Definition path_separator : string := String separator_char "".
Definition max_file_name_length : nat := 255.

(** [MAX_PATH] of <windows.h>. *)
Definition MAX_PATH : nat := 260.
Definition max_path_length : nat := MAX_PATH.

(** [RAND_MAX] of the Microsoft C runtime. *)
Definition RAND_MAX : Z := 32767.

(** *** Paths as strings *)

(** The path without its last component: [Some ""] directly under the
    root, [None] for a bare name. *)
Fixpoint parent_path (p : string) : option string :=
  match p with
  | EmptyString => None
  | String c r =>
      match parent_path r with
      | Some q => Some (String c q)
      | None => if Ascii.eqb c separator_char then Some EmptyString else None
      end
  end.

(** [q] is [p] itself or lies below it. *)
Definition within (p q : string) : bool :=
  String.eqb p q || String.prefix (p +:+ path_separator) q.

Definition outside (p : string) (e : string * file_type) : Prop :=
  within p e.1 = false.

Definition inside (p : string) (e : string * file_type) : Prop :=
  within p e.1 = true.

Definition child_of (p : string) (e : string * file_type) : Prop :=
  parent_path e.1 = Some p.

Global Instance outside_dec p e : Decision (outside p e).
Proof. unfold outside. apply _. Defined.
Global Instance inside_dec p e : Decision (inside p e).
Proof. unfold inside. apply _. Defined.
Global Instance child_of_dec p e : Decision (child_of p e).
Proof. unfold child_of. apply _. Defined.

(** *** Other processes *)

Definition apply_action (a : action) (m : gmap string file_type)
  : gmap string file_type :=
  match a with
  | Idle => m
  | ExtMkdir p => match m !! p with None => <[p := Directory]> m | Some _ => m end
  | ExtCreateFile p => match m !! p with None => <[p := Regular]> m | Some _ => m end
  | ExtRemoveAll p => filter (outside p) m
  end.

(** Every filesystem call is entered in the journal and first lets the
    next scheduled action happen. *)
Definition enter (c : syscall) (w : world) : world :=
  match others w with
  | [] => noted [c] w
  | a :: rest =>
      World (apply_action a (fs w)) (env w) (entropy w) (drawn w) rest
            (journal w ++ [c])
  end.

Definition quiet (w : world) : Prop := others w = [].

(** *** [std::filesystem], throwing overloads *)

Module filesystem.

(** A directory can be made at [p] when the parent of [p] is one. *)
Definition parent_is_directory (m : gmap string file_type) (p : string) : bool :=
  match parent_path p with
  | None => true
  | Some EmptyString => true
  | Some q => bool_decide (m !! q = Some Directory)
  end.

Definition create_directory (p : string) : M world bool := fun w0 =>
  let w := enter (CreateDirectory p) w0 in
  match fs w !! p with
  | Some Directory => Returned false w
  | Some _ => Thrown w
  | None =>
      if parent_is_directory (fs w) p
      then Returned true (set_fs (<[p := Directory]> (fs w)) w)
      else Thrown w
  end.

Definition is_directory (p : string) : M world bool := fun w0 =>
  let w := enter (IsDirectory p) w0 in
  Returned (bool_decide (fs w !! p = Some Directory)) w.

Definition exists_ (p : string) : M world bool := fun w0 =>
  let w := enter (Exists p) w0 in
  Returned (bool_decide (is_Some (fs w !! p))) w.

(** The entries of a directory, each with its path and its type. *)
Definition directory_iterator (p : string) : M world (list (string * file_type)) :=
  fun w0 =>
  let w := enter (DirectoryIterator p) w0 in
  match fs w !! p with
  | Some Directory => Returned (map_to_list (filter (child_of p) (fs w))) w
  | _ => Thrown w
  end.

Definition remove (p : string) : M world bool := fun w0 =>
  let w := enter (RemoveEntry p) w0 in
  match fs w !! p with
  | None => Returned false w
  | Some Directory =>
      if bool_decide (filter (child_of p) (fs w) = ∅)
      then Returned true (set_fs (delete p (fs w)) w)
      else Thrown w
  | Some _ => Returned true (set_fs (delete p (fs w)) w)
  end.

(** Returns the number of entries deleted. *)
Definition remove_all (p : string) : M world N := fun w0 =>
  let w := enter (RemoveAll p) w0 in
  match fs w !! p with
  | None => Returned 0%N w
  | Some _ =>
      Returned (N.of_nat (size (filter (inside p) (fs w))))
               (set_fs (filter (outside p) (fs w)) w)
  end.

End filesystem.

(** *** [std::getenv] and [std::rand] *)

Definition getenv (var : string) : M world (option string) :=
  fun w => Returned (env w !! var) w.

Definition rand : M world Z := fun w =>
  Returned (Z.of_N (entropy w (drawn w)) mod (RAND_MAX + 1))%Z
           (World (fs w) (env w) (entropy w) (S (drawn w)) (others w) (journal w)).

(** ** The file-local helpers of tempfile.cpp *)

Definition make_directory (path : string) : M world bool :=
  filesystem.create_directory path.

Definition directory_exists (path : string) : M world bool :=
  filesystem.is_directory path.

Definition file_exists (path : string) : M world bool :=
  filesystem.exists_ path.

Definition get_files_in_directory (path : string) : M world (list string) :=
  entries <- filesystem.directory_iterator path ;;
  for_fold entries
    (fun files entry =>
       if bool_decide (entry.2 = Regular)
       then ret (files ++ [entry.1])
       else ret files)
    [].

Definition remove_file (path : string) : M world bool :=
  filesystem.remove path.

(** The count returned by [remove_all] is converted to [bool]. *)
Definition remove_directory (path : string) : M world bool :=
  n <- filesystem.remove_all path ;;
  ret (negb (N.eqb n 0)).

(** [_min + (std::rand() % (_max - _min))], on [int]; [%] truncates. *)
Definition randrange (_min _max : Z) : M world Z :=
  r <- rand ;;
  ret (_min + Z.rem r (_max - _min))%Z.

Definition characters : string := "abcdefghijklmnopqrstuvwxyz0123456789_".

(** [s[i]] on a string literal: the characters, then the terminating NUL. *)
Definition char_at (s : string) (i : Z) : ascii :=
  if (i <? 0)%Z then Ascii.zero
  else match String.get (Z.to_nat i) s with
       | Some c => c
       | None => Ascii.zero
       end.

(** The loop of [random_name]: [n] iterations left, the next index is [i]. *)
Fixpoint random_name_loop (n i : nat) (name : list ascii) : M world (list ascii) :=
  match n with
  | O => ret name
  | S n' =>
      r <- randrange 0 36 ;;
      random_name_loop n' (S i) (<[i := char_at characters r]> name)
  end.

Definition random_name : M world string :=
  let k := 8%nat in
  name <- random_name_loop k 0 (replicate k Ascii.zero) ;;
  ret (string_of_list_ascii name).

Definition push_if_set (paths : list string) (value : option string)
  : list string :=
  match value with
  | Some p => paths ++ [p]
  | None => paths
  end.

Definition paths_to_try : M world (list string) :=
  let paths : list string := [] in
  (* get paths from environment variable *)
  paths <- for_fold ["TEMP"; "TMP"; "TMPDIR"]
             (fun paths var =>
                path <- getenv var ;;
                ret (push_if_set paths path))
             paths ;;
  (* get the system path *)
  root_path <- getenv "SYSTEMROOT" ;;
  let paths := push_if_set paths ((fun r => r +:+ "\Temp") <$> root_path) in
  userdata_path <- getenv "USERPROFILE" ;;
  let paths :=
    push_if_set paths ((fun u => u +:+ "\AppData\Local\Temp") <$> userdata_path) in
  paths <- for_fold ["c:\temp"; "c:\tmp"]
             (fun paths path_to_try => ret (paths ++ [path_to_try]))
             paths ;;
  (* get the current directory as last resort via cwd *)
  cwdpath <- getenv "CD" ;;
  let paths := push_if_set paths cwdpath in
  ret paths.

(** ** Member functions

    A member function runs on the object and the world together. *)

Definition get_this {T : Type} : M (T * world) T :=
  fun s => Returned s.1 s.

Definition set_this {T : Type} (this : T) : M (T * world) unit :=
  fun s => Returned tt (this, s.2).

(** A call of a free function from inside a member function. *)
Definition call {T A : Type} (m : M world A) : M (T * world) A :=
  fun s => match m s.2 with
           | Returned a w => Returned a (s.1, w)
           | Thrown w => Thrown (s.1, w)
           end.

Definition is_empty (s : string) : bool :=
  match s with
  | EmptyString => true
  | String _ _ => false
  end.

(** *** [tempfile::directory] *)

Module directory.

Record t : Type := Build {
  _good : bool;
  _prefix : string;
  _path : string
}.

Definition ctor (prefix : string) : t :=
  {| _good := false; _prefix := prefix; _path := EmptyString |}.

Definition path (this : t) : string := _path this.
Definition good (this : t) : bool := _good this.

(** The inner loop of [create] on one base path, [n] iterations left.
    The result tells whether [create] has returned [true] from inside. *)
Fixpoint attempts (n : nat) (path : string) : M (t * world) bool :=
  match n with
  | O => ret false
  | S n' =>
      (* create a random string *)
      random_string <- call random_name ;;
      this <- get_this ;;
      (* check if path is long enough *)
      if (max_path_length <? String.length path + String.length path_separator
                             + String.length (_prefix this)
                             + String.length random_string + 1)%nat
      then attempts n' path
      else
        (* create a temporary directory *)
        let path_to_try := path +:+ path_separator +:+ _prefix this
                           +:+ random_string in
        found <- call (directory_exists path_to_try) ;;
        if found then attempts n' path
        else
          made <- call (make_directory path_to_try) ;;
          if made
          then set_this {| _good := true; _prefix := _prefix this;
                           _path := path_to_try |} ;;;
               ret true
          else attempts n' path
  end.

(** The outer loop of [create] over the base paths. *)
Fixpoint over_paths (paths : list string) : M (t * world) bool :=
  match paths with
  | [] => ret false   (* failed to create a directory *)
  | path :: rest =>
      created <- attempts 100 path ;;
      if created then ret true else over_paths rest
  end.

Definition create : M (t * world) bool :=
  this <- get_this ;;
  if negb (is_empty (_path this)) && _good this
  then ret false
  else
    (* get the paths to try *)
    paths <- call paths_to_try ;;
    (* try to create a directory *)
    over_paths paths.

Definition remove : M (t * world) bool :=
  this <- get_this ;;
  present <- (if _good this then call (directory_exists (_path this))
              else ret false) ;;
  if present
  then
    files <- call (get_files_in_directory (_path this)) ;;
    for_each files (fun file_path => call (remove_file file_path) ;;; ret tt) ;;;
    call (remove_directory (_path this)) ;;;
    ret true
  else ret false.

Definition dtor : M (t * world) unit :=
  remove ;;; ret tt.

End directory.

(** *** [tempfile::scoped_directory] *)

Module scoped_directory.

Definition ctor (prefix : string) : M world directory.t :=
  fun w => match directory.create (directory.ctor prefix, w) with
           | Returned _ s => Returned s.1 s.2
           | Thrown s => Thrown s.2
           end.

(** The body of the destructor, then the destructor of the base. *)
Definition dtor : M (directory.t * world) unit :=
  directory.remove ;;; directory.dtor.

End scoped_directory.

(** *** [tempfile::file] *)

Module file.

Record t : Type := Build {
  _good : bool;
  _prefix : string;
  _path : string
}.

Definition ctor (prefix : string) : t :=
  {| _good := false; _prefix := prefix; _path := EmptyString |}.

Definition path (this : t) : string := _path this.
Definition good (this : t) : bool := _good this.

Definition dtor : M (t * world) unit :=
  this <- get_this ;;
  present <- (if _good this then call (file_exists (_path this))
              else ret false) ;;
  if present
  then call (remove_file (_path this)) ;;; ret tt
  else ret tt.

Definition remove : M (t * world) bool :=
  this <- get_this ;;
  present <- (if _good this then call (file_exists (_path this))
              else ret false) ;;
  if present
  then call (remove_file (_path this)) ;;; ret true
  else ret false.

End file.

(** *** [tempfile::scoped_file] *)

Module scoped_file.

Definition ctor (prefix : string) : M world file.t :=
  ret (file.ctor prefix).

Definition dtor : M (file.t * world) unit :=
  file.remove ;;; file.dtor.

End scoped_file.

(** ** Lifetimes *)

(** The world after [k] more calls of [std::rand] and nothing else. *)
Definition advance (k : nat) (w : world) : world :=
  World (fs w) (env w) (entropy w) (drawn w + k) (others w) (journal w).

Inductive method : Type := Create | Remove.

Definition invoke (m : method) : M (directory.t * world) bool :=
  match m with
  | Create => directory.create
  | Remove => directory.remove
  end.

(** The directory handle after a series of calls, each made in the world
    of its moment.  A call that throws leaves the object with the caller. *)
Fixpoint handle_after (calls : list (method * world)) (this : directory.t)
  : directory.t :=
  match calls with
  | [] => this
  | (m, w) :: rest => handle_after rest (final (invoke m (this, w))).1
  end.

(** The file handle after a series of [remove()] calls. *)
Fixpoint file_after (worlds : list world) (this : file.t) : file.t :=
  match worlds with
  | [] => this
  | w :: rest => file_after rest (final (file.remove (this, w))).1
  end.

(** ** Reference definitions and closed forms *)

(** The characters [a-z0-9]. *)
Definition lower_or_digit (c : ascii) : bool :=
  let n := nat_of_ascii c in
  (((97 <=? n) && (n <=? 122)) || ((48 <=? n) && (n <=? 57)))%nat.

(** The alphabet of the specification, [a-z0-9_]. *)
Definition in_alphabet (c : ascii) : bool :=
  lower_or_digit c || Ascii.eqb c "_".

Definition option_list {A : Type} (o : option A) : list A :=
  match o with
  | Some a => [a]
  | None => []
  end.

(** The system temp roots of the platform, as [paths_to_try] derives them. *)
Definition system_roots (e : gmap string string) : list string :=
  option_list ((fun r => r +:+ "\Temp") <$> e !! "SYSTEMROOT")
  ++ option_list ((fun u => u +:+ "\AppData\Local\Temp") <$> e !! "USERPROFILE")
  ++ ["c:\temp"; "c:\tmp"].

Definition working_directory (e : gmap string string) : list string :=
  option_list (e !! "CD").

Definition temp_variables : list string := ["TEMP"; "TMP"; "TMPDIR"].

(** The candidate list in closed form: every variable that is set
    contributes its value. *)
Definition candidates (e : gmap string string) : list string :=
  omap (fun var => e !! var) temp_variables
  ++ system_roots e ++ working_directory e.

(** The candidate list in the words of the specification: a variable
    contributes only if it is set and non-empty. *)
Definition set_and_non_empty (v : option string) : option string :=
  match v with
  | Some s => if is_empty s then None else Some s
  | None => None
  end.

Definition paths_to_try_spec (e : gmap string string) : list string :=
  omap (fun var => set_and_non_empty (e !! var)) temp_variables
  ++ system_roots e ++ working_directory e.

(** [directory::remove] in the words of the specification: the result is
    that of the directory removal. *)
Definition remove_spec : M (directory.t * world) bool :=
  this <- get_this ;;
  present <- (if directory._good this
              then call (directory_exists (directory._path this))
              else ret false) ;;
  if present
  then
    files <- call (get_files_in_directory (directory._path this)) ;;
    for_each files (fun file_path => call (remove_file file_path) ;;; ret tt) ;;;
    call (remove_directory (directory._path this))
  else ret false.

(** The regular files directly inside [p], as [get_files_in_directory]
    lists them. *)
Definition regular_files (p : string) (m : gmap string file_type) : list string :=
  (filter (fun e : string * file_type => e.2 = Regular)
          (map_to_list (filter (child_of p) m))).*1.

(** The filesystem calls of a [directory::remove] that gets past its test. *)
Definition removal_calls (p : string) (m : gmap string file_type) : list syscall :=
  [IsDirectory p; DirectoryIterator p]
  ++ map RemoveEntry (regular_files p m) ++ [RemoveAll p].

(** ** Predicates used in the statements *)

(** What the [j]-th coming call of [randrange(0, 36)] returns. *)
Definition index_drawn (w : world) (j : nat) : Z :=
  (0 + Z.rem (Z.of_N (entropy w (drawn w + j)) mod (RAND_MAX + 1)) (36 - 0))%Z.

(** The character of the table that it selects. *)
Definition picked (w : world) (j : nat) : ascii :=
  char_at characters (index_drawn w j).

(** The name that the [i]-th coming call of [random_name] returns. *)
Definition name_drawn (w : world) (i : nat) : string :=
  string_of_list_ascii (map (picked w) (seq (8 * i) 8)).

(** The character [c] can come out at position [i] of a generated name. *)
Definition can_occur (c : ascii) (i : nat) : Prop :=
  exists (w : world) (name : string) (w' : world),
    random_name w = Returned name w' /\ String.get i name = Some c.

(** Where a letter or digit stands in the table. *)
Definition index_of (c : ascii) : N :=
  let n := N_of_ascii c in
  if (97 <=? n)%N then (n - 97)%N else (n - 48 + 26)%N.

(** The path that the [i]-th coming attempt under [base] tries. *)
Definition path_tried (base prefix : string) (w : world) (i : nat) : string :=
  base +:+ path_separator +:+ prefix +:+ name_drawn w i.

(** [h'] is [h] after a successful creation under [base], seen in [w']. *)
Definition created_in (base : string) (h h' : directory.t) (w' : world) : Prop :=
  exists name : string,
    h' = directory.Build true (directory._prefix h)
           (base +:+ path_separator +:+ directory._prefix h +:+ name)
    /\ String.length name = 8
    /\ Forall (fun c => lower_or_digit c = true) (list_ascii_of_string name)
    /\ fs w' !! directory._path h' = Some Directory.

(** Only the filesystem and the schedule of the others may differ. *)
Definition steady (w w' : world) : Prop :=
  env w' = env w /\ entropy w' = entropy w /\ drawn w' = drawn w.

(** A member function that leaves the object as it is. *)
Definition keeps_this {T A : Type} (m : M (T * world) A) : Prop :=
  forall s, (final (m s)).1 = s.1.

(** ** Sample worlds *)

Definition counting : nat -> N := fun n => N.of_nat n.

(** [TEMP] points at an existing directory; nobody else is active. *)
Definition calm_world : world :=
  World {[ "c:\temp" := Directory ]} {[ "TEMP" := "c:\temp" ]} counting 0 [] [].

(** A handle that owns [c:\temp\tmpabcdefgh], holding a file and a
    subdirectory. *)
Definition live_handle : directory.t :=
  directory.Build true "tmp" "c:\temp\tmpabcdefgh".

Definition live_world : world :=
  World (<[ "c:\temp\tmpabcdefgh\notes.txt" := Regular ]>
          (<[ "c:\temp\tmpabcdefgh\sub" := Directory ]>
            (<[ "c:\temp\tmpabcdefgh" := Directory ]>
              {[ "c:\temp" := Directory ]})))
        {[ "TEMP" := "c:\temp" ]} counting 8 [] [].

(** The same handle on an empty directory, while another process deletes
    the directory between the listing and the recursive removal. *)
Definition raced_world : world :=
  World (<[ "c:\temp\tmpabcdefgh" := Directory ]> {[ "c:\temp" := Directory ]})
        {[ "TEMP" := "c:\temp" ]} counting 8
        [Idle; Idle; ExtRemoveAll "c:\temp\tmpabcdefgh"] [].

(** [TEMP] is set to the empty string. *)
Definition empty_TEMP_world : world :=
  World {[ "c:\temp" := Directory ]} {[ "TEMP" := "" ]} counting 0 [] [].

(** Nothing is set, [std::rand] keeps drawing 36, and the one name this
    yields is taken under both literal roots. *)
Definition stuck_world : world :=
  World (<[ "c:\temp\tmpaaaaaaaa" := Directory ]>
          (<[ "c:\tmp\tmpaaaaaaaa" := Directory ]>
            (<[ "c:\tmp" := Directory ]> {[ "c:\temp" := Directory ]})))
        ∅ (fun _ => 36%N) 0 [] [].

(** [calm_world] once a handle with prefix [tmp] has been created in it. *)
Definition created_world : world :=
  World (<[ "c:\temp\tmpabcdefgh" := Directory ]> {[ "c:\temp" := Directory ]})
        {[ "TEMP" := "c:\temp" ]} counting 8 []
        [IsDirectory "c:\temp\tmpabcdefgh"; CreateDirectory "c:\temp\tmpabcdefgh"].

(** [live_world] once the directory of [live_handle] has been removed. *)
Definition removed_world : world :=
  World {[ "c:\temp" := Directory ]} {[ "TEMP" := "c:\temp" ]} counting 8 []
        [IsDirectory "c:\temp\tmpabcdefgh";
         DirectoryIterator "c:\temp\tmpabcdefgh";
         RemoveEntry "c:\temp\tmpabcdefgh\notes.txt";
         RemoveAll "c:\temp\tmpabcdefgh"].

(** A prefix so long that no candidate path fits in [MAX_PATH]. *)
Definition long_prefix : string :=
  string_of_list_ascii (replicate 250 "x"%char).

(** ** Further definitions *)

(** [default_prefix] of tempfile.hpp. *)
Definition default_prefix : string := "tmp".

(** The bounds of [int]. *)
Definition INT_MIN : Z := (- 2147483648)%Z.
Definition INT_MAX : Z := 2147483647%Z.

(** No path separator occurs in [s]. *)
Fixpoint separator_free (s : string) : bool :=
  match s with
  | EmptyString => true
  | String c r => negb (Ascii.eqb c separator_char) && separator_free r
  end.

(** The paths above [s]: every [p] such that [p] followed by the separator
    begins [s]. *)
Fixpoint above (s : string) : list string :=
  match s with
  | EmptyString => []
  | String c r =>
      (if Ascii.eqb c separator_char then [EmptyString] else [])
      ++ map (String c) (above r)
  end.

(** A namespace in which every entry sits in directories all the way up. *)
Definition tree_like (m : gmap string file_type) : Prop :=
  map_Forall
    (fun q _ => Forall (fun p => p = "" \/ m !! p = Some Directory) (above q))
    m.

(** The calls that [directory::create] may make. *)
Definition creation_call (c : syscall) : Prop :=
  match c with
  | IsDirectory _ | CreateDirectory _ => True
  | _ => False
  end.

(** The calls that [directory::remove] may make on the directory [p]. *)
Definition removal_call_on (p : string) (c : syscall) : Prop :=
  match c with
  | IsDirectory q | DirectoryIterator q | RemoveAll q => q = p
  | RemoveEntry f => parent_path f = Some p
  | _ => False
  end.

(** The indices in the table of the characters of a name. *)
Definition indices_of (name : string) : list Z :=
  map (fun c => Z.of_N (index_of c)) (list_ascii_of_string name).

(** A drive with an existing [c:\temp], to which [TEMP] points. *)
Definition rooted_world : world :=
  World (<[ "c:\temp" := Directory ]> {[ "c:" := Directory ]})
        {[ "TEMP" := "c:\temp" ]} counting 0 [] [].


(** [live_world] while another process deletes the directory right after
    the existence test of [remove()]. *)
Definition vanishing_world : world :=
  World (fs live_world) (env live_world) counting 8
        [Idle; ExtRemoveAll "c:\temp\tmpabcdefgh"] [].

(** From [w] to [w'] the journal grew by calls that all satisfy [P], and
    the environment and the random source are the same. *)
Definition frame (P : syscall -> Prop) (w w' : world) : Prop :=
  (exists calls : list syscall,
     journal w' = journal w ++ calls /\ Forall P calls)
  /\ env w' = env w
  /\ entropy w' = entropy w.

(** [rooted_world] once a handle with prefix [tmp] has been created in it
    and a file and a subdirectory have been put in its directory. *)
Definition used_world : world :=
  World (<[ "c:\temp\tmpabcdefgh\sub\deep.txt" := Regular ]>
          (<[ "c:\temp\tmpabcdefgh\sub" := Directory ]>
            (<[ "c:\temp\tmpabcdefgh\notes.txt" := Regular ]>
              (<[ "c:\temp\tmpabcdefgh" := Directory ]> (fs rooted_world)))))
        (env rooted_world) counting 8 [] [].

(** [TEMP] points at an existing directory in which the first name that
    will be drawn is already taken. *)
Definition taken_world : world :=
  World (<[ "c:\temp\tmpabcdefgh" := Directory ]> {[ "c:\temp" := Directory ]})
        {[ "TEMP" := "c:\temp" ]} counting 0 [] [].

(** A character that is safe in a file name: a letter, a digit, [_] or
    [-].  It is neither of the two separators of the platform nor any
    character the platform refuses or gives a meaning to in names. *)
Definition portable_char (c : ascii) : bool :=
  let n := nat_of_ascii c in
  (((97 <=? n) && (n <=? 122)) || ((65 <=? n) && (n <=? 90))
   || ((48 <=? n) && (n <=? 57)) || (n =? 95) || (n =? 45))%nat.

Fixpoint portable_name (s : string) : bool :=
  match s with
  | EmptyString => true
  | String c r => portable_char c && portable_name r
  end.



(** * Properties *)

(** ** The random source and the name generator *)

Lemma rand_advances w :
  rand w = Returned (Z.of_N (entropy w (drawn w)) mod (RAND_MAX + 1))%Z (advance 1 w).
Proof.
  unfold rand, advance. do 2 f_equal. lia.
Qed.

Lemma advance_advance j k w : advance k (advance j w) = advance (j + k) w.
Proof.
  unfold advance; simpl. f_equal. lia.
Qed.

Lemma advance_0 w : advance 0 w = w.
Proof.
  destruct w; unfold advance; simpl. f_equal. lia.
Qed.

Lemma index_drawn_range w j : (0 <= index_drawn w j < 36)%Z.
Proof.
  unfold index_drawn, RAND_MAX.
  assert (0 <= Z.of_N (entropy w (drawn w + j)) mod (32767 + 1))%Z
    by (apply Z.mod_pos_bound; lia).
  pose proof (Z.rem_bound_pos (Z.of_N (entropy w (drawn w + j)) mod (32767 + 1)) (36 - 0)).
  lia.
Qed.

Lemma randrange_0_36 w :
  randrange 0 36 w = Returned (index_drawn w 0) (advance 1 w).
Proof.
  unfold randrange, bind. rewrite rand_advances. unfold ret, index_drawn.
  by rewrite Nat.add_0_r.
Qed.

Lemma index_drawn_advance w j : index_drawn (advance 1 w) j = index_drawn w (S j).
Proof.
  unfold index_drawn, advance; simpl. do 5 f_equal. lia.
Qed.

Lemma char_at_first_36 (i : Z) :
  (0 <= i < 36)%Z -> lower_or_digit (char_at characters i) = true.
Proof.
  intros Hi. unfold char_at.
  destruct (Z.ltb_spec i 0) as [?|_]; [lia|].
  assert (Hn : Z.to_nat i < 36) by lia.
  revert Hn. generalize (Z.to_nat i) as n. intros n Hn.
  do 36 (destruct n as [|n]; [reflexivity|]). lia.
Qed.

Lemma char_at_first_36_not_underscore (i : Z) :
  (0 <= i < 36)%Z -> char_at characters i <> "_"%char.
Proof.
  intros Hi E. apply char_at_first_36 in Hi. rewrite E in Hi. discriminate.
Qed.

Lemma random_name_loop_closed n :
  forall (i : nat) (name : list ascii) (w : world),
    i + n <= length name ->
    random_name_loop n i name w
    = Returned (take i name ++ map (picked w) (seq 0 n) ++ drop (i + n) name)
               (advance n w).
Proof.
  induction n as [|n IH]; intros i name w Hlen; simpl.
  - unfold ret. rewrite Nat.add_0_r, take_drop, advance_0. done.
  - unfold bind at 1. rewrite randrange_0_36.
    rewrite IH by (rewrite length_insert; lia).
    rewrite advance_advance. f_equal.
    assert (Hi : i < length name) by lia.
    destruct (lookup_lt_is_Some_2 name i Hi) as [x Hx].
    rewrite (take_S_r _ _ (char_at characters (index_drawn w 0))).
    2:{ rewrite list_lookup_insert_eq; [done|lia]. }
    rewrite take_insert_ge by lia.
    rewrite drop_insert_lt by lia.
    rewrite <- app_assoc. simpl. do 2 f_equal.
    rewrite <- seq_shift, map_map.
    f_equal; [|f_equal; lia].
    apply map_ext. intros j. unfold picked. by rewrite index_drawn_advance.
Qed.

Lemma random_name_closed w :
  random_name w
  = Returned (string_of_list_ascii (map (picked w) (seq 0 8))) (advance 8 w).
Proof.
  unfold random_name, bind.
  rewrite random_name_loop_closed by (rewrite length_replicate; lia).
  unfold ret. by rewrite app_nil_r.
Qed.

Lemma length_string_of_list_ascii (l : list ascii) :
  String.length (string_of_list_ascii l) = length l.
Proof.
  induction l; simpl; congruence.
Qed.

Lemma picked_lower_or_digit w j : lower_or_digit (picked w j) = true.
Proof.
  apply char_at_first_36, index_drawn_range.
Qed.

Lemma random_name_drawn w :
  random_name w = Returned (name_drawn w 0) (advance 8 w).
Proof. apply random_name_closed. Qed.

Lemma picked_advance k w j : picked (advance k w) j = picked w (k + j).
Proof.
  unfold picked, index_drawn, advance; simpl. do 6 f_equal. lia.
Qed.

Lemma name_drawn_advance w i : name_drawn (advance 8 w) i = name_drawn w (S i).
Proof.
  unfold name_drawn. f_equal.
  replace (8 * S i) with (8 + 8 * i) by lia.
  rewrite <- (fmap_add_seq 8), <- list_fmap_compose.
  apply list_fmap_ext. intros _ j _. apply picked_advance.
Qed.

(** The names depend on the random source only. *)
Lemma name_drawn_ext w1 w2 i :
  entropy w1 = entropy w2 -> drawn w1 = drawn w2 ->
  name_drawn w1 i = name_drawn w2 i.
Proof.
  intros He Hd. unfold name_drawn, picked, index_drawn. by rewrite He, Hd.
Qed.

(** *** Which characters a name can hold *)

Lemma characters_is_alphabet :
  String.length characters = 37
  /\ forall c, In c (list_ascii_of_string characters) <-> in_alphabet c = true.
Proof.
  split; [reflexivity|].
  intros [[] [] [] [] [] [] [] []]; vm_compute; split;
    (discriminate || tauto || intuition discriminate).
Qed.

Lemma index_of_spec (c : ascii) :
  lower_or_digit c = true ->
  (index_of c < 36)%N /\ char_at characters (Z.of_N (index_of c)) = c.
Proof.
  destruct c as [[] [] [] [] [] [] [] []]; vm_compute;
    (discriminate || (intros _; split; reflexivity)).
Qed.

Lemma get_string_of_list_ascii (l : list ascii) : forall i,
  String.get i (string_of_list_ascii l) = l !! i.
Proof.
  induction l as [|c l IH]; intros [|i]; simpl; auto.
Qed.

Lemma underscore_cannot_occur (i : nat) : ~ can_occur "_"%char i.
Proof.
  intros (w & name & w' & Hn & Hget).
  rewrite random_name_closed in Hn.
  assert (name = string_of_list_ascii (map (picked w) (seq 0 8))) as ->
    by congruence.
  rewrite get_string_of_list_ascii, list_lookup_fmap in Hget.
  destruct (seq 0 8 !! i) as [j|]; [|done]. simpl in Hget.
  injection Hget as Hc.
  exact (char_at_first_36_not_underscore _ (index_drawn_range w j) Hc).
Qed.

Lemma letters_and_digits_can_occur (c : ascii) (i : nat) :
  i < 8 -> lower_or_digit c = true -> can_occur c i.
Proof.
  intros Hi Hc. destruct (index_of_spec c Hc) as [Hlt Hat].
  exists (World ∅ ∅ (fun _ => index_of c) 0 [] []). eexists _, _.
  split; [apply random_name_closed|].
  rewrite get_string_of_list_ascii, list_lookup_fmap.
  rewrite lookup_seq_lt by done. simpl. f_equal.
  etrans; [|exact Hat]. unfold picked, index_drawn. simpl. f_equal.
  unfold RAND_MAX. rewrite Z.mod_small by lia.
  rewrite Z.rem_small by lia. lia.
Qed.

(** ** The candidate paths *)

Lemma paths_to_try_closed w :
  paths_to_try w = Returned (candidates (env w)) w.
Proof.
  unfold paths_to_try, candidates, system_roots, working_directory,
    temp_variables, getenv, bind, ret; simpl.
  destruct (env w !! "TEMP"), (env w !! "TMP"), (env w !! "TMPDIR"),
    (env w !! "SYSTEMROOT"), (env w !! "USERPROFILE"), (env w !! "CD");
    reflexivity.
Qed.

(** ** Filesystem calls leave the rest of the world alone *)

Lemma steady_trans w1 w2 w3 : steady w1 w2 -> steady w2 w3 -> steady w1 w3.
Proof. unfold steady. intros (-> & -> & ->) (-> & -> & ->). done. Qed.

Lemma steady_enter c w : steady w (enter c w).
Proof. unfold enter, steady. by destruct (others w). Qed.

Lemma steady_set_fs m w : steady w (set_fs m w).
Proof. by unfold steady. Qed.

Lemma enter_quiet c w : quiet w -> enter c w = noted [c] w.
Proof. unfold quiet, enter. by intros ->. Qed.

Lemma noted_nil w : noted [] w = w.
Proof. destruct w. unfold noted; simpl. by rewrite app_nil_r. Qed.

Lemma directory_exists_unfold p w :
  directory_exists p w
  = Returned (bool_decide (fs (enter (IsDirectory p) w) !! p = Some Directory))
             (enter (IsDirectory p) w).
Proof. reflexivity. Qed.

Lemma make_directory_cases p w :
  match make_directory p w with
  | Returned true w' =>
      steady w w' /\ fs w' !! p = Some Directory
  | Returned false w' => steady w w'
  | Thrown w' => steady w w'
  end.
Proof.
  unfold make_directory, filesystem.create_directory.
  pose proof (steady_enter (CreateDirectory p) w) as Ht.
  destruct (fs (enter (CreateDirectory p) w) !! p) as [[]|]; try done.
  destruct (filesystem.parent_is_directory _ _); [|done].
  split; [|by simpl; rewrite lookup_insert_eq].
  eapply steady_trans; [exact Ht|apply steady_set_fs].
Qed.

(** ** create *)

Lemma attempts_post n : forall base h w,
  match directory.attempts n base (h, w) with
  | Returned true (h', w') =>
      created_in base h h' w'
      /\ exists k, 1 <= k <= n /\ drawn w' = drawn w + 8 * k
  | Returned false (h', w') => h' = h /\ drawn w' = drawn w + 8 * n
  | Thrown (h', w') =>
      h' = h /\ exists k, 1 <= k <= n /\ drawn w' = drawn w + 8 * k
  end.
Proof.
  induction n as [|n IH]; intros base h w.
  - simpl. unfold ret. split; [done|lia].
  - cbn [directory.attempts]. unfold bind at 1. unfold call at 1.
    cbn [fst snd]. rewrite random_name_closed.
    set (name := string_of_list_ascii (map (picked w) (seq 0 8))).
    unfold bind at 1, get_this at 1. cbn [fst snd].
    assert (Hstep : forall w1, drawn w1 = drawn w + 8 ->
      match directory.attempts n base (h, w1) with
      | Returned true (h', w') =>
          created_in base h h' w'
          /\ exists k, 1 <= k <= S n /\ drawn w' = drawn w + 8 * k
      | Returned false (h', w') => h' = h /\ drawn w' = drawn w + 8 * S n
      | Thrown (h', w') =>
          h' = h /\ exists k, 1 <= k <= S n /\ drawn w' = drawn w + 8 * k
      end).
    { intros w1 Hw1. specialize (IH base h w1).
      destruct (directory.attempts n base (h, w1)) as [[] [h' w']|[h' w']].
      - destruct IH as [Hc (k & Hk & Hd)]. split; [done|].
        exists (S k). split; lia.
      - destruct IH as [-> Hd]. split; [done|lia].
      - destruct IH as [-> (k & Hk & Hd)]. split; [done|].
        exists (S k). split; lia. }
    destruct (_ <? _)%nat.
    { apply Hstep. reflexivity. }
    unfold bind at 1, call at 1. cbn [fst snd].
    rewrite directory_exists_unfold.
    match goal with |- context [enter ?c (advance 8 w)] =>
      pose proof (steady_enter c (advance 8 w)) as (_ & _ & Hd1)
    end. simpl in Hd1.
    destruct (bool_decide _).
    { apply Hstep. done. }
    unfold bind at 1, call at 1. cbn [fst snd].
    match goal with |- context [make_directory ?p ?w1] =>
      pose proof (make_directory_cases p w1) as Hmk;
      destruct (make_directory p w1) as [[] w2|w2]
    end.
    + destruct Hmk as [(_ & _ & Hd2) Hdir].
      unfold bind, set_this, ret; cbn [fst snd]. split.
      * exists name. split; [done|].
        split; [by unfold name; rewrite length_string_of_list_ascii|].
        split; [|done].
        unfold name. rewrite list_ascii_of_string_of_list_ascii.
        apply Forall_forall. intros c Hc. apply list_elem_of_In, in_map_iff in Hc.
        destruct Hc as (j & <- & _). apply picked_lower_or_digit.
      * exists 1. split; [lia|]. rewrite Hd2, Hd1. lia.
    + destruct Hmk as (_ & _ & Hd2). apply Hstep. rewrite Hd2, Hd1. done.
    + destruct Hmk as (_ & _ & Hd2). cbn [fst snd]. split; [done|].
      exists 1. split; [lia|]. rewrite Hd2, Hd1. lia.
Qed.

Lemma over_paths_post paths : forall h w,
  match directory.over_paths paths (h, w) with
  | Returned true (h', w') =>
      (exists base, In base paths /\ created_in base h h' w')
      /\ exists k, 1 <= k <= 100 * length paths /\ drawn w' = drawn w + 8 * k
  | Returned false (h', w') =>
      h' = h /\ drawn w' = drawn w + 8 * (100 * length paths)
  | Thrown (h', w') =>
      h' = h /\ exists k, 1 <= k <= 100 * length paths
                          /\ drawn w' = drawn w + 8 * k
  end.
Proof.
  induction paths as [|base rest IH]; intros h w.
  - cbn. split; [done|lia].
  - cbn [directory.over_paths length]. unfold bind at 1.
    pose proof (attempts_post 100 base h w) as Ha.
    destruct (directory.attempts 100 base (h, w)) as [[] [h1 w1]|[h1 w1]].
    + destruct Ha as [Hc (k & Hk & Hd)]. unfold ret. split.
      * exists base. split; [by left|done].
      * exists k. split; lia.
    + destruct Ha as [-> Hd]. specialize (IH h w1).
      destruct (directory.over_paths rest (h, w1)) as [[] [h2 w2]|[h2 w2]].
      * destruct IH as [(b & Hb & Hc) (k & Hk & Hd2)]. split.
        -- exists b. split; [by right|done].
        -- exists (100 + k). split; lia.
      * destruct IH as [-> Hd2]. split; [done|lia].
      * destruct IH as [-> (k & Hk & Hd2)]. split; [done|].
        exists (100 + k). split; lia.
    + destruct Ha as [-> (k & Hk & Hd)]. split; [done|].
      exists k. split; lia.
Qed.

Lemma create_unfold_fresh h w :
  directory._good h = false ->
  directory.create (h, w) = directory.over_paths (candidates (env w)) (h, w).
Proof.
  intros Hg. unfold directory.create, bind at 1, get_this at 1. cbn [fst snd].
  rewrite Hg, andb_false_r.
  unfold bind, call. cbn [fst snd]. by rewrite paths_to_try_closed.
Qed.

Lemma create_unfold_valid h w :
  directory._good h = true -> directory._path h <> "" ->
  directory.create (h, w) = Returned false (h, w).
Proof.
  intros Hg Hp. unfold directory.create, bind at 1, get_this at 1. cbn [fst snd].
  rewrite Hg. destruct (directory._path h); [done|]. reflexivity.
Qed.

(** A path that is too long for every name is skipped every time. *)
Lemma attempts_too_long n : forall base h w,
  max_path_length < String.length base + String.length path_separator
                    + String.length (directory._prefix h) + 8 + 1 ->
  directory.attempts n base (h, w) = Returned false (h, advance (8 * n) w).
Proof.
  induction n as [|n IH]; intros base h w Hlong.
  - simpl. unfold ret. by rewrite advance_0.
  - cbn [directory.attempts]. unfold bind at 1, call at 1. cbn [fst snd].
    rewrite random_name_closed.
    unfold bind at 1, get_this at 1. cbn [fst snd].
    rewrite length_string_of_list_ascii, length_map, length_seq.
    destruct (Nat.ltb_spec max_path_length
      (String.length base + String.length path_separator
       + String.length (directory._prefix h) + 8 + 1)) as [_|?]; [|lia].
    rewrite IH by done. rewrite advance_advance. do 3 f_equal. lia.
Qed.

(** A base under which every name drawn is taken is asked about each of
    them and nothing is made. *)
Lemma attempts_all_taken n : forall base h w,
  quiet w ->
  String.length base + String.length path_separator
  + String.length (directory._prefix h) + 8 + 1 <= max_path_length ->
  (forall i, i < n ->
     fs w !! path_tried base (directory._prefix h) w i = Some Directory) ->
  directory.attempts n base (h, w)
  = Returned false
      (h, noted (map (fun i => IsDirectory
                                 (path_tried base (directory._prefix h) w i))
                     (seq 0 n))
                (advance (8 * n) w)).
Proof.
  induction n as [|n IH]; intros base h w Hq Hfit Htaken.
  - simpl. unfold ret. by rewrite advance_0, noted_nil.
  - cbn [directory.attempts]. unfold bind at 1, call at 1. cbn [fst snd].
    rewrite random_name_drawn.
    unfold bind at 1, get_this at 1. cbn [fst snd].
    assert (Hlen : String.length (name_drawn w 0) = 8)
      by (unfold name_drawn;
          by rewrite length_string_of_list_ascii, length_map, length_seq).
    rewrite Hlen.
    destruct (Nat.ltb_spec max_path_length
      (String.length base + String.length path_separator
       + String.length (directory._prefix h) + 8 + 1)) as [?|_]; [lia|].
    unfold bind at 1, call at 1. cbn [fst snd].
    rewrite directory_exists_unfold, enter_quiet by done. simpl.
    fold (path_tried base (directory._prefix h) w 0).
    rewrite bool_decide_eq_true_2 by (apply Htaken; lia).
    rewrite IH; [|done|done|].
    + do 2 f_equal. unfold noted, advance; simpl. f_equal; [lia|].
      rewrite <- app_assoc. simpl. do 2 f_equal.
      rewrite <- seq_shift, map_map. apply map_ext. intros i.
      unfold path_tried. do 4 f_equal. rewrite <- name_drawn_advance.
      by apply name_drawn_ext.
    + intros i Hi. simpl. unfold path_tried.
      rewrite (name_drawn_ext _ (advance 8 w)), name_drawn_advance by done.
      apply Htaken. lia.
Qed.

(** ** Member functions that do not touch the object *)

Lemma keeps_this_ret {T A} (a : A) : keeps_this (@ret (T * world) A a).
Proof. by intros s. Qed.

Lemma keeps_this_get {T} : keeps_this (@get_this T).
Proof. by intros s. Qed.

Lemma keeps_this_call {T A} (m : M world A) : keeps_this (@call T A m).
Proof. intros s. unfold call. by destruct (m s.2). Qed.

Lemma keeps_this_bind {T A B} (m : M (T * world) A) (k : A -> M (T * world) B) :
  keeps_this m -> (forall a, keeps_this (k a)) -> keeps_this (bind m k).
Proof.
  intros Hm Hk s. unfold bind. specialize (Hm s).
  destruct (m s) as [a s'|s']; simpl in *; [|done].
  by rewrite Hk.
Qed.

Lemma keeps_this_for_each {T A} (l : list A) (body : A -> M (T * world) unit) :
  (forall a, keeps_this (body a)) -> keeps_this (for_each l body).
Proof.
  intros Hb. induction l as [|a l IH]; simpl.
  - apply keeps_this_ret.
  - apply keeps_this_bind; [apply Hb|by intros _].
Qed.

Create HintDb keeps discriminated.
#[local] Hint Resolve keeps_this_ret keeps_this_get keeps_this_call
  keeps_this_for_each : keeps.

Lemma remove_keeps_this : keeps_this directory.remove.
Proof.
  unfold directory.remove.
  apply keeps_this_bind; [auto with keeps|]. intros this.
  apply keeps_this_bind; [destruct (directory._good this); auto with keeps|].
  intros [|]; [|auto with keeps].
  apply keeps_this_bind; [auto with keeps|]. intros files.
  apply keeps_this_bind.
  - apply keeps_this_for_each. intros file_path.
    apply keeps_this_bind; auto with keeps.
  - intros _. apply keeps_this_bind; auto with keeps.
Qed.

(** ** Paths *)

Lemma string_app_cons (c : ascii) (s t : string) :
  String c s +:+ t = String c (s +:+ t).
Proof. reflexivity. Qed.

Lemma string_length_app (s t : string) :
  String.length (s +:+ t) = String.length s + String.length t.
Proof.
  induction s as [|c s IH]; [done|].
  rewrite string_app_cons. simpl. by rewrite IH.
Qed.

Lemma prefix_app (s t : string) : String.prefix s (s +:+ t) = true.
Proof.
  induction s as [|c s IH].
  - by destruct t.
  - rewrite string_app_cons. simpl. by destruct (ascii_dec c c).
Qed.

Lemma string_app_assoc (s t u : string) : (s +:+ t) +:+ u = s +:+ t +:+ u.
Proof.
  induction s as [|c s IH]; [done|].
  rewrite !string_app_cons. by rewrite IH.
Qed.

Lemma parent_path_split (f : string) : forall p,
  parent_path f = Some p -> exists leaf, f = p +:+ path_separator +:+ leaf.
Proof.
  induction f as [|c r IH]; intros p; simpl; [done|].
  destruct (parent_path r) as [q|].
  - intros [= <-]. destruct (IH q eq_refl) as [leaf ->]. by exists leaf.
  - destruct (Ascii.eqb_spec c separator_char) as [->|]; [|done].
    intros [= <-]. by exists r.
Qed.

Lemma within_self p : within p p = true.
Proof. unfold within. by rewrite String.eqb_refl. Qed.

Lemma child_within p f : parent_path f = Some p -> within p f = true /\ f <> p.
Proof.
  intros Hf. destruct (parent_path_split _ _ Hf) as [leaf ->]. split.
  - unfold within. rewrite <- string_app_assoc, prefix_app. apply orb_true_r.
  - intros E. apply (f_equal String.length) in E.
    rewrite !string_length_app in E. simpl in E. lia.
Qed.

(** ** The filesystem calls of remove *)

Lemma remove_directory_gone p w :
  exists b w', remove_directory p w = Returned b w' /\ fs w' !! p = None.
Proof.
  unfold remove_directory, filesystem.remove_all, bind, ret.
  destruct (fs (enter (RemoveAll p) w) !! p) eqn:E;
    eexists _, _; (split; [reflexivity|]).
  - simpl. apply map_lookup_filter_None. right.
    intros x _. unfold outside. simpl. by rewrite within_self.
  - done.
Qed.

Lemma remove_directory_present p w :
  is_Some (fs (enter (RemoveAll p) w) !! p) ->
  remove_directory p w
  = Returned true (set_fs (filter (outside p) (fs (enter (RemoveAll p) w)))
                          (enter (RemoveAll p) w)).
Proof.
  intros [t Ht].
  unfold remove_directory, filesystem.remove_all, bind, ret. rewrite Ht.
  f_equal. apply negb_true_iff, N.eqb_neq.
  assert (size (filter (inside p) (fs (enter (RemoveAll p) w))) <> 0); [|lia].
  apply map_size_non_empty_iff. intros E.
  assert (filter (inside p) (fs (enter (RemoveAll p) w)) !! p = Some t) as Hin.
  { apply map_lookup_filter_Some. split; [done|]. apply within_self. }
  rewrite E in Hin. by rewrite lookup_empty in Hin.
Qed.

Lemma set_fs_same w : set_fs (fs w) w = w.
Proof. by destruct w. Qed.

Lemma set_fs_noted_again m m' cs cs' w :
  set_fs m' (noted cs' (set_fs m (noted cs w))) = set_fs m' (noted (cs ++ cs') w).
Proof. unfold set_fs, noted; simpl. by rewrite app_assoc. Qed.

(** The listing keeps the regular entries, in the order of iteration. *)
Lemma collect_regular (entries : list (string * file_type)) : forall acc w,
  for_fold (S := world) entries
    (fun files entry =>
       if bool_decide (entry.2 = Regular)
       then ret (files ++ [entry.1])
       else ret files) acc w
  = Returned (acc ++ (filter (fun e => e.2 = Regular) entries).*1) w.
Proof.
  induction entries as [|e entries IH]; intros acc w; simpl.
  - unfold ret. by rewrite app_nil_r.
  - unfold bind. rewrite filter_cons. case_bool_decide; case_decide; try done.
    + unfold ret at 1. rewrite IH. by rewrite <- app_assoc.
    + unfold ret at 1. by rewrite IH.
Qed.

Lemma regular_files_spec p m :
  NoDup (regular_files p m)
  /\ forall f, f ∈ regular_files p m ->
       m !! f = Some Regular /\ within p f = true /\ f <> p.
Proof.
  unfold regular_files. split.
  - eapply sublist_NoDup;
      [apply (NoDup_fst_map_to_list (filter (child_of p) m))|].
    apply fmap_sublist, sublist_filter.
  - intros f Hf. apply list_elem_of_fmap in Hf as ([f' t] & -> & Hin).
    apply list_elem_of_filter in Hin as [Hreg Hin]. simpl in *. subst t.
    apply elem_of_map_to_list, map_lookup_filter_Some in Hin as [Hl Hc].
    split; [done|]. by apply child_within.
Qed.

Lemma get_files_in_directory_quiet p w :
  quiet w -> fs w !! p = Some Directory ->
  get_files_in_directory p w
  = Returned (regular_files p (fs w)) (noted [DirectoryIterator p] w).
Proof.
  intros Hq Hp.
  unfold get_files_in_directory, bind, filesystem.directory_iterator.
  rewrite (enter_quiet _ _ Hq). simpl. rewrite Hp. by rewrite collect_regular.
Qed.

Lemma remove_file_regular_quiet f w :
  quiet w -> fs w !! f = Some Regular ->
  remove_file f w
  = Returned true (set_fs (delete f (fs w)) (noted [RemoveEntry f] w)).
Proof.
  intros Hq Hf. unfold remove_file, filesystem.remove.
  rewrite (enter_quiet _ _ Hq). simpl. by rewrite Hf.
Qed.

Lemma remove_files_quiet {T} (p : string) (h : T) (files : list string) :
  forall w,
    quiet w -> NoDup files ->
    (forall f, f ∈ files ->
       fs w !! f = Some Regular /\ within p f = true /\ f <> p) ->
    exists m',
      for_each files (fun file_path => call (remove_file file_path) ;;; ret tt) (h, w)
      = Returned tt (h, set_fs m' (noted (map RemoveEntry files) w))
      /\ filter (outside p) m' = filter (outside p) (fs w)
      /\ m' !! p = fs w !! p.
Proof.
  set (body := fun file_path : string => _).
  induction files as [|f files IH]; intros w Hq Hnd Hall; simpl.
  - exists (fs w). unfold ret. by rewrite noted_nil, set_fs_same.
  - apply NoDup_cons in Hnd as [Hnotin Hnd].
    destruct (Hall f) as (Hf & Hin & Hne); [by left|].
    assert (Hb : body f (h, w)
                 = Returned tt (h, set_fs (delete f (fs w))
                                          (noted [RemoveEntry f] w))).
    { unfold body, bind, call. cbn [fst snd].
      by rewrite remove_file_regular_quiet. }
    unfold bind at 1. rewrite Hb.
    destruct (IH (set_fs (delete f (fs w)) (noted [RemoveEntry f] w)))
      as (m' & Hrun & Hfilter & Hp).
    + done.
    + done.
    + intros f' Hf'. destruct (Hall f') as (? & ? & ?); [by right|].
      split; [|done]. simpl. rewrite lookup_delete_ne; [done|].
      intros ->. done.
    + exists m'. rewrite Hrun, set_fs_noted_again. split; [done|]. simpl in *.
      rewrite Hfilter, Hp. split.
      * rewrite map_filter_delete. apply delete_id.
        apply map_lookup_filter_None. right. intros x _.
        unfold outside. simpl. by rewrite Hin.
      * by rewrite lookup_delete_ne.
Qed.

(** ** remove *)

Lemma remove_invalid h w :
  directory._good h = false -> directory.remove (h, w) = Returned false (h, w).
Proof.
  intros Hg. unfold directory.remove, bind, get_this. cbn [fst snd].
  by rewrite Hg.
Qed.

Lemma remove_absent h w :
  quiet w -> directory._good h = true ->
  fs w !! directory._path h <> Some Directory ->
  directory.remove (h, w)
  = Returned false (h, noted [IsDirectory (directory._path h)] w).
Proof.
  intros Hq Hg Hp.
  unfold directory.remove, bind at 1, get_this at 1. cbn [fst snd]. rewrite Hg.
  unfold bind at 1, call at 1. cbn [fst snd].
  rewrite directory_exists_unfold, (enter_quiet _ _ Hq). simpl.
  by rewrite bool_decide_eq_false_2.
Qed.

Lemma remove_quiet h w :
  quiet w -> directory._good h = true ->
  fs w !! directory._path h = Some Directory ->
  directory.remove (h, w)
  = Returned true
      (h, set_fs (filter (outside (directory._path h)) (fs w))
                 (noted (removal_calls (directory._path h) (fs w)) w)).
Proof.
  intros Hq Hg Hp. set (p := directory._path h) in *.
  unfold directory.remove, bind at 1, get_this at 1. cbn [fst snd]. rewrite Hg.
  unfold bind at 1, call at 1. cbn [fst snd]. fold p.
  rewrite directory_exists_unfold, (enter_quiet _ _ Hq). simpl.
  rewrite bool_decide_eq_true_2 by done.
  unfold bind at 1, call at 1. cbn [fst snd].
  rewrite get_files_in_directory_quiet by done. simpl.
  destruct (regular_files_spec p (fs w)) as [Hnd Hall].
  destruct (remove_files_quiet p h (regular_files p (fs w))
              (noted [DirectoryIterator p] (noted [IsDirectory p] w))
              Hq Hnd Hall) as (m' & Hrun & Hfilter & Hm').
  simpl in Hfilter, Hm'.
  unfold bind at 1. rewrite Hrun.
  unfold bind, call, ret. cbn [fst snd].
  rewrite remove_directory_present; rewrite enter_quiet by done; simpl.
  - rewrite Hfilter. unfold set_fs, noted, removal_calls; simpl.
    do 3 f_equal. by rewrite <- !app_assoc.
  - rewrite Hm', Hp. by eexists.
Qed.

(** Whenever [remove] returns [true] the directory is no longer there, and
    the object is as it was. *)
Lemma remove_true_inv h w s' :
  directory.remove (h, w) = Returned true s' ->
  s'.1 = h /\ directory._good h = true /\ fs s'.2 !! directory._path h = None.
Proof.
  unfold directory.remove, bind at 1, get_this at 1. cbn [fst snd].
  destruct (directory._good h); [|done].
  unfold bind at 1, call at 1. cbn [fst snd]. rewrite directory_exists_unfold.
  destruct (bool_decide _); [|done].
  unfold bind at 1, call at 1. cbn [fst snd].
  destruct (get_files_in_directory _ _) as [files w1|w1]; [|done].
  unfold bind at 1.
  match goal with |- context [for_each files ?body ?s] =>
    pose proof (keeps_this_for_each files body
      ltac:(intros a; apply keeps_this_bind;
            [apply keeps_this_call|intros; apply keeps_this_ret]) s) as Hk;
    destruct (for_each files body s) as [[] [h2 w2]|[h2 w2]]; [|done]
  end.
  simpl in Hk. subst h2.
  unfold bind, call, ret. cbn [fst snd].
  destruct (remove_directory_gone (directory._path h) w2) as (b & w3 & -> & Hgone).
  intros [= <-]. done.
Qed.

(** Past the test, [remove] answers [true] or throws. *)
Lemma remove_past_test h w :
  directory._good h = true ->
  fs (enter (IsDirectory (directory._path h)) w) !! directory._path h
  = Some Directory ->
  match directory.remove (h, w) with
  | Returned b s' =>
      b = true /\ s'.1 = h /\ fs s'.2 !! directory._path h = None
  | Thrown _ => True
  end.
Proof.
  intros Hg Hp.
  destruct (directory.remove (h, w)) as [b s'|s'] eqn:E; [|done].
  assert (b = true) as ->.
  { revert E. unfold directory.remove, bind at 1, get_this at 1.
    cbn [fst snd]. rewrite Hg.
    unfold bind at 1, call at 1. cbn [fst snd]. rewrite directory_exists_unfold.
    rewrite bool_decide_eq_true_2 by done.
    unfold bind at 1. destruct (call _ _) as [files s1|s1]; [|done].
    unfold bind at 1. destruct (for_each _ _ _) as [[] s2|s2]; [|done].
    unfold bind at 1. destruct (call _ _) as [b' s3|s3]; [|done].
    unfold ret. by intros [= <- _]. }
  split; [done|]. apply remove_true_inv in E as (? & _ & ?). done.
Qed.

(** ** Files *)

Lemma file_remove_invalid h w :
  file._good h = false -> file.remove (h, w) = Returned false (h, w).
Proof.
  intros Hg. unfold file.remove, bind, get_this. cbn [fst snd]. by rewrite Hg.
Qed.

Lemma file_dtor_invalid h w :
  file._good h = false -> file.dtor (h, w) = Returned tt (h, w).
Proof.
  intros Hg. unfold file.dtor, bind, get_this. cbn [fst snd]. by rewrite Hg.
Qed.

Lemma file_after_invalid worlds : forall h,
  file._good h = false -> file._good (file_after worlds h) = false.
Proof.
  induction worlds as [|w worlds IH]; intros h Hg; simpl; [done|].
  apply IH. by rewrite file_remove_invalid.
Qed.

(** * The specification, statement by statement *)

(** C1, as stated, fails: on a handle that owns [c:\temp\tmpabcdefgh],
    [remove()] returns [true] and deletes the directory, and afterwards
    the handle is the same: [good()] is still [true] and [path()] still
    holds the path of the directory that is gone. *)
Lemma remove_leaves_handle_valid :
  directory.remove (live_handle, live_world)
  = Returned true (live_handle, removed_world)
  /\ fs removed_world !! "c:\temp\tmpabcdefgh" = None
  /\ directory.good live_handle = true
  /\ directory.path live_handle = "c:\temp\tmpabcdefgh".
Proof. repeat split; vm_compute; reflexivity. Qed.

(** C1, amended: when [remove()] returns [true] the handle is left as it
    was, so [good()] is still [true] and [path()] still holds the path; the
    directory is gone from the filesystem, and a second [remove()] with no
    other process acting in between returns [false], because the
    directory no longer exists: it only asks whether the directory is
    there. *)
Theorem remove_twice (h : directory.t) (w : world) (s' : directory.t * world) :
  directory.remove (h, w) = Returned true s' ->
  quiet s'.2 ->
  s'.1 = h
  /\ directory.good s'.1 = true
  /\ directory.path s'.1 = directory.path h
  /\ fs s'.2 !! directory.path h = None
  /\ directory.remove s'
     = Returned false (h, noted [IsDirectory (directory.path h)] s'.2).
Proof.
  intros Hrm Hq. apply remove_true_inv in Hrm as (Hh & Hg & Hgone).
  destruct s' as [h' w']. simpl in *. subst h'.
  repeat split; try done.
  apply remove_absent; [done..|]. unfold directory.path in Hgone.
  by rewrite Hgone.
Qed.

(** C2: the name has eight characters and each is one of the first 36
    characters of the table, a letter or a digit: whatever [std::rand]
    draws, the underscore at index 36 is never picked. *)
Theorem random_name_never_underscore (w : world) :
  exists name : string,
    random_name w = Returned name (advance 8 w)
    /\ String.length name = 8
    /\ Forall (fun c => lower_or_digit c = true /\ c <> "_"%char)
              (list_ascii_of_string name).
Proof.
  eexists. split; [apply random_name_closed|]. split.
  - by rewrite length_string_of_list_ascii, length_map, length_seq.
  - rewrite list_ascii_of_string_of_list_ascii.
    apply Forall_forall. intros c Hc.
    apply list_elem_of_In, in_map_iff in Hc as (j & <- & _). split.
    + apply picked_lower_or_digit.
    + apply char_at_first_36_not_underscore, index_drawn_range.
Qed.

(** The leaf of a created directory is the prefix followed by such a name. *)
Lemma create_leaf_name (h : directory.t) (w : world) (s' : directory.t * world) :
  directory.good h = false ->
  directory.create (h, w) = Returned true s' ->
  exists base, In base (candidates (env w)) /\ created_in base h s'.1 s'.2.
Proof.
  intros Hg Hc. rewrite create_unfold_fresh in Hc by done.
  pose proof (over_paths_post (candidates (env w)) h w) as Hp.
  rewrite Hc in Hp. destruct s' as [h' w']. by destruct Hp as [Hp _].
Qed.

(** C3: the constructor of [scoped_file] only initialises the members: the
    world is untouched, so no file is created, the path is empty and the
    handle is not good. *)
Theorem scoped_file_ctor_creates_nothing (prefix : string) (w : world) :
  scoped_file.ctor prefix w = Returned (file.ctor prefix) w
  /\ file.good (file.ctor prefix) = false
  /\ file.path (file.ctor prefix) = "".
Proof. done. Qed.

(** C4, as stated, fails: when another process deletes the directory
    between the listing and the recursive removal, the removal finds
    nothing to delete and reports failure, yet [remove()] returns [true],
    where the specification's [remove] returns [false]. *)
Lemma remove_ignores_failed_removal :
  let after :=
    (live_handle,
     World {[ "c:\temp" := Directory ]} {[ "TEMP" := "c:\temp" ]} counting 8 []
           [IsDirectory "c:\temp\tmpabcdefgh";
            DirectoryIterator "c:\temp\tmpabcdefgh";
            RemoveAll "c:\temp\tmpabcdefgh"]) in
  directory.remove (live_handle, raced_world) = Returned true after
  /\ remove_spec (live_handle, raced_world) = Returned false after.
Proof. split; vm_compute; reflexivity. Qed.

(** C4, amended: on a valid handle whose path exists as a directory when
    [remove()] tests it, [remove()] returns [true] whenever it returns,
    whatever the directory removal reported, and leaves the object as it
    was.  With no other process acting it does return, and its filesystem
    calls are, in this order: the test, the listing, the removal of each
    regular file directly inside, the recursive removal of the directory;
    what is left of the filesystem is what lies outside the directory. *)
Theorem remove_returns_true_regardless (h : directory.t) (w : world) :
  directory.good h = true ->
  fs (enter (IsDirectory (directory.path h)) w) !! directory.path h
  = Some Directory ->
  match directory.remove (h, w) with
  | Returned b s' =>
      b = true /\ s'.1 = h /\ fs s'.2 !! directory.path h = None
  | Thrown _ => True
  end
  /\ (quiet w ->
      directory.remove (h, w)
      = Returned true
          (h, set_fs (filter (outside (directory.path h)) (fs w))
                     (noted (removal_calls (directory.path h) (fs w)) w))).
Proof.
  intros Hg Hp. split.
  - by apply remove_past_test.
  - intros Hq. rewrite (enter_quiet _ _ Hq) in Hp. by apply remove_quiet.
Qed.

(** C5, as stated, fails: [TEMP] set to the empty string contributes the
    empty path as first candidate, where the specification's list leaves
    it out. *)
Lemma paths_to_try_keeps_empty_value :
  paths_to_try empty_TEMP_world
  = Returned [""; "c:\temp"; "c:\tmp"] empty_TEMP_world
  /\ paths_to_try_spec (env empty_TEMP_world) = ["c:\temp"; "c:\tmp"].
Proof. split; vm_compute; reflexivity. Qed.

(** C5, amended: the candidates are, in this order, the values of [TEMP],
    [TMP] and [TMPDIR], each contributing whenever it is set, the empty
    value included; then the system roots; and last the working directory
    read from [CD]. *)
Theorem paths_to_try_order (w : world) :
  paths_to_try w
  = Returned (omap (fun var => env w !! var) ["TEMP"; "TMP"; "TMPDIR"]
              ++ system_roots (env w)
              ++ option_list (env w !! "CD")) w.
Proof. apply paths_to_try_closed. Qed.

(** C6: [create()] on a handle that is good and has a path returns
    [false] without throwing and leaves the object and the whole world,
    filesystem included, as they were. *)
Theorem create_on_valid_handle (h : directory.t) (w : world) :
  directory.good h = true ->
  directory.path h <> "" ->
  directory.create (h, w) = Returned false (h, w).
Proof. apply create_unfold_valid. Qed.

(** C7: on one base path [create()] generates at most 100 names, and
    exactly 100 when it moves on to the next base.  A base under which
    every path is too long uses up its 100 names without a filesystem
    call; a base under which every name drawn is taken uses them up with
    100 existence tests and creates nothing.  Over [n] candidates
    [create()] either succeeds, throws, or returns [false] after exactly
    [100 * n] names with the handle unchanged and not good; on an empty
    list the loop returns [false] at once.  Each name costs eight calls of
    [std::rand], which is how names are counted. *)
Theorem create_attempt_budget (h : directory.t) (w : world) :
  directory.good h = false ->
  let n := length (candidates (env w)) in
  let fits base :=
    String.length base + String.length path_separator
    + String.length (directory._prefix h) + 8 + 1 <= max_path_length in
  (forall base,
     match directory.attempts 100 base (h, w) with
     | Returned true (h', w') =>
         directory.good h' = true
         /\ exists k, 1 <= k <= 100 /\ drawn w' = drawn w + 8 * k
     | Returned false (h', w') => h' = h /\ drawn w' = drawn w + 8 * 100
     | Thrown (h', w') =>
         h' = h /\ exists k, 1 <= k <= 100 /\ drawn w' = drawn w + 8 * k
     end)
  /\ (forall base,
        ~ fits base ->
        directory.attempts 100 base (h, w)
        = Returned false (h, advance (8 * 100) w))
  /\ (forall base,
        fits base -> quiet w ->
        (forall i, i < 100 ->
           fs w !! path_tried base (directory._prefix h) w i = Some Directory) ->
        directory.attempts 100 base (h, w)
        = Returned false
            (h, noted (map (fun i => IsDirectory
                                       (path_tried base (directory._prefix h) w i))
                           (seq 0 100))
                      (advance (8 * 100) w)))
  /\ match directory.create (h, w) with
     | Returned true (h', w') =>
         directory.good h' = true
         /\ exists k, 1 <= k <= 100 * n /\ drawn w' = drawn w + 8 * k
     | Returned false (h', w') =>
         h' = h /\ directory.good h' = false
         /\ drawn w' = drawn w + 8 * (100 * n)
     | Thrown (h', w') =>
         h' = h /\ exists k, 1 <= k <= 100 * n /\ drawn w' = drawn w + 8 * k
     end
  /\ directory.over_paths [] (h, w) = Returned false (h, w).
Proof.
  intros Hg n fits. split; [|split; [|split; [|split]]].
  - intros base. pose proof (attempts_post 100 base h w) as Ha.
    destruct (directory.attempts 100 base (h, w)) as [[] [h' w']|[h' w']];
      [|done..].
    destruct Ha as [(name & -> & _) Hk]. done.
  - intros base Hlong. apply attempts_too_long. unfold fits in Hlong. lia.
  - intros base Hfit Hq Htaken. by apply attempts_all_taken.
  - rewrite create_unfold_fresh by done.
    pose proof (over_paths_post (candidates (env w)) h w) as Hp.
    destruct (directory.over_paths _ _) as [[] [h' w']|[h' w']]; [| |done].
    + destruct Hp as [(base & _ & name & -> & _) Hk]. done.
    + destruct Hp as [-> Hd]. done.
  - reflexivity.
Qed.

Lemma created_path_non_empty base prefix name :
  base +:+ path_separator +:+ prefix +:+ name <> "".
Proof.
  intros E. apply (f_equal String.length) in E.
  rewrite !string_length_app in E. simpl in E. lia.
Qed.

Lemma invoke_keeps_invariant (m : method) (h : directory.t) (w : world) :
  (directory.good h = true -> directory.path h <> "") ->
  directory.good (final (invoke m (h, w))).1 = true ->
  directory.path (final (invoke m (h, w))).1 <> "".
Proof.
  intros Hinv. destruct m; simpl.
  - destruct (directory._good h) eqn:Hg.
    + rewrite create_unfold_valid by auto. simpl. auto.
    + rewrite create_unfold_fresh by done.
      pose proof (over_paths_post (candidates (env w)) h w) as Hp.
      destruct (directory.over_paths _ _) as [[] [h' w']|[h' w']]; simpl.
      * destruct Hp as [(base & _ & name & -> & _) _]. intros _.
        apply created_path_non_empty.
      * destruct Hp as [-> _]. auto.
      * destruct Hp as [-> _]. auto.
  - pose proof (remove_keeps_this (h, w)) as Hk. simpl in Hk. rewrite Hk. auto.
Qed.




(** C9: a [file] or [scoped_file] handle is constructed not good and stays
    so whatever [remove()] calls are made on it; [remove()] then returns
    [false] and neither it nor the destructors change the world, so no
    filesystem object is removed. *)
Theorem file_never_good (prefix : string) (worlds : list world) (w : world) :
  let h := file_after worlds (file.ctor prefix) in
  scoped_file.ctor prefix w = Returned (file.ctor prefix) w
  /\ file.good (file.ctor prefix) = false
  /\ file.good h = false
  /\ file.remove (h, w) = Returned false (h, w)
  /\ file.dtor (h, w) = Returned tt (h, w)
  /\ scoped_file.dtor (h, w) = Returned tt (h, w).
Proof.
  intros h.
  assert (Hg : file._good h = false) by (by apply file_after_invalid).
  pose proof (file_remove_invalid h w Hg) as Hr.
  pose proof (file_dtor_invalid h w Hg) as Hd.
  repeat split; try done.
  unfold scoped_file.dtor, bind. by rewrite Hr, Hd.
Qed.

(** C10: after construction and after any series of [create()] and
    [remove()] calls, in whatever worlds they are made, a handle that is
    good has a non-empty path. *)
Theorem good_implies_path (prefix : string) (calls : list (method * world)) :
  let h := handle_after calls (directory.ctor prefix) in
  directory.good h = true -> directory.path h <> "".
Proof.
  cbn zeta.
  assert (Hgen : forall h0,
    (directory.good h0 = true -> directory.path h0 <> "") ->
    directory.good (handle_after calls h0) = true ->
    directory.path (handle_after calls h0) <> "").
  { induction calls as [|[m w] calls IH]; intros h0 Hinv; simpl; [done|].
    apply IH. by apply invoke_keeps_invariant. }
  apply Hgen. done.
Qed.

(** * Instances on the sample worlds *)

Example random_name_when_rand_draws_36 :
  random_name stuck_world = Returned "aaaaaaaa" (advance 8 stuck_world).
Proof. vm_compute. reflexivity. Qed.

Example scoped_directory_in_calm_world :
  scoped_directory.ctor "tmp" calm_world = Returned live_handle created_world.
Proof. vm_compute. reflexivity. Qed.

Example create_throws_under_missing_root :
  directory.create
    (directory.ctor "tmp",
     World ∅ {[ "TEMP" := "c:\nowhere" ]} counting 0 [] [])
  = Thrown
    (directory.ctor "tmp",
     World ∅ {[ "TEMP" := "c:\nowhere" ]} counting 8 []
           [IsDirectory "c:\nowhere\tmpabcdefgh";
            CreateDirectory "c:\nowhere\tmpabcdefgh"]).
Proof. vm_compute. reflexivity. Qed.

Lemma remove_twice_witness :
  directory.remove (live_handle, live_world)
  = Returned true (live_handle, removed_world)
  /\ quiet removed_world
  /\ directory.remove (live_handle, removed_world)
     = Returned false
         (live_handle, noted [IsDirectory "c:\temp\tmpabcdefgh"] removed_world).
Proof.
  assert (H : directory.remove (live_handle, live_world)
              = Returned true (live_handle, removed_world))
    by (vm_compute; reflexivity).
  split; [exact H|]. split; [reflexivity|].
  exact (proj2 (proj2 (proj2 (proj2 (remove_twice _ _ _ H eq_refl))))).
Defined.

Lemma remove_returns_true_regardless_witness :
  directory.good live_handle = true
  /\ fs (enter (IsDirectory (directory.path live_handle)) live_world)
       !! directory.path live_handle = Some Directory
  /\ directory.remove (live_handle, live_world)
     = Returned true
         (live_handle,
          set_fs (filter (outside (directory.path live_handle)) (fs live_world))
                 (noted (removal_calls (directory.path live_handle)
                                       (fs live_world)) live_world)).
Proof.
  assert (Hp : fs (enter (IsDirectory (directory.path live_handle)) live_world)
                 !! directory.path live_handle
               = Some Directory) by (vm_compute; reflexivity).
  split; [reflexivity|]. split; [exact Hp|].
  destruct (remove_returns_true_regardless live_handle live_world eq_refl Hp)
    as [_ H].
  exact (H eq_refl).
Defined.

Lemma create_on_valid_handle_witness :
  directory.good live_handle = true
  /\ directory.path live_handle <> ""
  /\ directory.create (live_handle, live_world)
     = Returned false (live_handle, live_world).
Proof.
  assert (Hp : directory.path live_handle <> "") by (vm_compute; discriminate).
  split; [reflexivity|]. split; [exact Hp|].
  exact (create_on_valid_handle live_handle live_world eq_refl Hp).
Defined.

Lemma create_attempt_budget_witness :
  directory.good (directory.ctor long_prefix) = false
  /\ ~ (String.length "c:\temp" + String.length path_separator
        + String.length (directory._prefix (directory.ctor long_prefix)) + 8 + 1
        <= max_path_length)
  /\ directory.attempts 100 "c:\temp" (directory.ctor long_prefix, calm_world)
     = Returned false (directory.ctor long_prefix, advance (8 * 100) calm_world).
Proof.
  assert (Hlong : ~ (String.length "c:\temp" + String.length path_separator
                     + String.length
                         (directory._prefix (directory.ctor long_prefix))
                     + 8 + 1 <= max_path_length)) by (vm_compute; lia).
  split; [reflexivity|]. split; [exact Hlong|].
  destruct (create_attempt_budget (directory.ctor long_prefix) calm_world
              eq_refl) as (_ & H & _).
  exact (H "c:\temp" Hlong).
Defined.


Lemma good_implies_path_witness :
  directory.good (handle_after [(Create, calm_world)] (directory.ctor "tmp"))
  = true
  /\ directory.path (handle_after [(Create, calm_world)] (directory.ctor "tmp"))
     <> "".
Proof.
  assert (Hg : directory.good
                 (handle_after [(Create, calm_world)] (directory.ctor "tmp"))
               = true) by (vm_compute; reflexivity).
  split; [exact Hg|].
  exact (good_implies_path "tmp" [(Create, calm_world)] Hg).
Defined.


Example teardown_in_live_world :
  scoped_directory.dtor (live_handle, live_world)
  = Returned tt
      (live_handle, noted [IsDirectory "c:\temp\tmpabcdefgh"] removed_world).
Proof. vm_compute. reflexivity. Qed.

Example create_with_long_prefix :
  directory.create (directory.ctor long_prefix, calm_world)
  = Returned false
      (directory.ctor long_prefix, advance (8 * (100 * 3)) calm_world).
Proof. vm_compute. reflexivity. Qed.

Example create_when_every_name_is_taken :
  directory.create (directory.ctor "tmp", stuck_world)
  = Returned false
      (directory.ctor "tmp",
       noted (replicate 100 (IsDirectory "c:\temp\tmpaaaaaaaa")
              ++ replicate 100 (IsDirectory "c:\tmp\tmpaaaaaaaa"))
             (advance (8 * (100 * 2)) stuck_world)).
Proof. vm_compute. reflexivity. Qed.

(** Another process makes the directory between the existence test and
    the creation: the attempt is lost and the next name is tried. *)
Example create_after_losing_a_race :
  directory.create
    (directory.ctor "tmp",
     World {[ "c:\temp" := Directory ]} {[ "TEMP" := "c:\temp" ]} counting 0
           [Idle; ExtMkdir "c:\temp\tmpabcdefgh"] [])
  = Returned true
      (directory.Build true "tmp" "c:\temp\tmpijklmnop",
       World (<[ "c:\temp\tmpijklmnop" := Directory ]>
               (<[ "c:\temp\tmpabcdefgh" := Directory ]>
                 {[ "c:\temp" := Directory ]}))
             {[ "TEMP" := "c:\temp" ]} counting 16 []
             [IsDirectory "c:\temp\tmpabcdefgh";
              CreateDirectory "c:\temp\tmpabcdefgh";
              IsDirectory "c:\temp\tmpijklmnop";
              CreateDirectory "c:\temp\tmpijklmnop"]).
Proof. vm_compute. reflexivity. Qed.

(** * Further properties *)

(** ** The candidate paths *)

(** X1: [paths_to_try] reads the environment and changes nothing; its list
    is never empty: it holds the two literal roots, in this order, after
    at most five entries taken from the environment and before at most
    one, the working directory. *)
Theorem paths_to_try_never_empty (w : world) :
  exists before after : list string,
    paths_to_try w
    = Returned (before ++ ["c:\temp"; "c:\tmp"] ++ after) w
    /\ length before <= 5
    /\ length after <= 1
    /\ after = option_list (env w !! "CD").
Proof.
  rewrite paths_to_try_closed.
  unfold candidates, system_roots, working_directory, temp_variables.
  exists (omap (fun var => env w !! var) ["TEMP"; "TMP"; "TMPDIR"]
          ++ option_list ((fun r => r +:+ "\Temp") <$> env w !! "SYSTEMROOT")
          ++ option_list ((fun u => u +:+ "\AppData\Local\Temp")
                          <$> env w !! "USERPROFILE")),
         (option_list (env w !! "CD")).
  split; [by rewrite <- !app_assoc|].
  split; [|split; [|done]].
  - simpl. destruct (env w !! "TEMP"), (env w !! "TMP"), (env w !! "TMPDIR"),
      (env w !! "SYSTEMROOT"), (env w !! "USERPROFILE"); simpl; lia.
  - destruct (env w !! "CD"); simpl; lia.
Qed.

(** ** The random source *)

(** X2: for [int] bounds with [_min < _max] whose difference is an [int],
    [randrange] makes one call of [std::rand] and returns a value in
    [_min, _max): the upper bound is never returned. *)
Theorem randrange_in_range (_min _max : Z) (w : world) :
  (INT_MIN <= _min)%Z -> (_min < _max)%Z -> (_max <= INT_MAX)%Z ->
  (_max - _min <= INT_MAX)%Z ->
  exists r : Z,
    randrange _min _max w = Returned r (advance 1 w)
    /\ (_min <= r < _max)%Z.
Proof.
  intros Hlo Hlt Hhi Hd. unfold randrange, bind. rewrite rand_advances.
  eexists. split; [reflexivity|].
  assert (0 <= Z.of_N (entropy w (drawn w)) mod (RAND_MAX + 1))%Z
    by (apply Z.mod_pos_bound; unfold RAND_MAX; lia).
  pose proof (Z.rem_bound_pos
                (Z.of_N (entropy w (drawn w)) mod (RAND_MAX + 1))
                (_max - _min)).
  lia.
Qed.

Lemma randrange_in_range_witness :
  exists r : Z,
    randrange 10 20 calm_world = Returned r (advance 1 calm_world)
    /\ (10 <= r < 20)%Z.
Proof.
  apply (randrange_in_range 10 20 calm_world); unfold INT_MIN, INT_MAX; lia.
Defined.

(** X3: a character can come out at position [i] of a generated name
    exactly when [i < 8] and the character is a lower-case letter or a
    digit: each of the 36 can occur at each of the eight positions, and
    nothing else anywhere. *)
Theorem can_occur_iff (c : ascii) (i : nat) :
  can_occur c i <-> i < 8 /\ lower_or_digit c = true.
Proof.
  split.
  - intros (w & name & w' & Hn & Hget).
    rewrite random_name_closed in Hn.
    assert (name = string_of_list_ascii (map (picked w) (seq 0 8))) as ->
      by congruence.
    rewrite get_string_of_list_ascii in Hget.
    pose proof (lookup_lt_Some _ _ _ Hget) as Hi.
    rewrite length_map, length_seq in Hi. split; [done|].
    rewrite list_lookup_fmap in Hget.
    destruct (seq 0 8 !! i) as [j|]; [|done].
    injection Hget as <-. apply picked_lower_or_digit.
  - intros [Hi Hc]. by apply letters_and_digits_can_occur.
Qed.

(** ** Names and the indices drawn *)

Lemma index_of_char_at (i : Z) :
  (0 <= i < 36)%Z -> Z.of_N (index_of (char_at characters i)) = i.
Proof.
  intros Hi. unfold char_at.
  destruct (Z.ltb_spec i 0) as [?|_]; [lia|].
  rewrite <- (Z2Nat.id i) at 2 by lia.
  assert (Hn : Z.to_nat i < 36) by lia.
  revert Hn. generalize (Z.to_nat i) as n. intros n Hn.
  do 36 (destruct n as [|n]; [reflexivity|]). lia.
Qed.

Lemma indices_of_name_drawn w :
  indices_of (name_drawn w 0) = map (index_drawn w) (seq 0 8).
Proof.
  unfold indices_of, name_drawn.
  rewrite list_ascii_of_string_of_list_ascii, map_map.
  apply map_ext. intros j. apply index_of_char_at, index_drawn_range.
Qed.

(** X4: the indices drawn can be read back from a generated name, so two
    names are equal exactly when the eight indices drawn for them are:
    the generator maps the [36^8] index sequences to distinct names. *)
Theorem random_name_injective (w1 w2 : world) :
  exists name1 name2 : string,
    random_name w1 = Returned name1 (advance 8 w1)
    /\ random_name w2 = Returned name2 (advance 8 w2)
    /\ indices_of name1 = map (index_drawn w1) (seq 0 8)
    /\ (name1 = name2 <->
        map (index_drawn w1) (seq 0 8) = map (index_drawn w2) (seq 0 8)).
Proof.
  exists (name_drawn w1 0), (name_drawn w2 0).
  split; [apply random_name_drawn|]. split; [apply random_name_drawn|].
  split; [apply indices_of_name_drawn|]. split.
  - intros E. by rewrite <- !indices_of_name_drawn, E.
  - intros E. unfold name_drawn. f_equal. change (8 * 0) with 0.
    assert (Hsplit : forall w,
      map (picked w) (seq 0 8)
      = map (char_at characters) (map (index_drawn w) (seq 0 8)))
      by (intros w; by rewrite map_map).
    by rewrite !Hsplit, E.
Qed.

(** ** The listing of a directory *)

Lemma elem_of_regular_files p m f :
  f ∈ regular_files p m <-> m !! f = Some Regular /\ parent_path f = Some p.
Proof.
  unfold regular_files. rewrite list_elem_of_fmap. split.
  - intros ([f' t] & -> & Hin).
    apply list_elem_of_filter in Hin as [Hreg Hin]. simpl in *. subst t.
    by apply elem_of_map_to_list, map_lookup_filter_Some in Hin.
  - intros [Hf Hp]. exists (f, Regular). split; [done|].
    apply list_elem_of_filter. split; [done|].
    by apply elem_of_map_to_list, map_lookup_filter_Some.
Qed.

(** X5: with no other process acting, [get_files_in_directory] on a
    directory returns, without repetition, exactly the regular files
    directly inside it (no subdirectory, nothing deeper) and leaves the
    filesystem as it is; on a path that is not a directory it throws. *)
Theorem get_files_in_directory_lists (p : string) (w : world) :
  quiet w ->
  match fs w !! p with
  | Some Directory =>
      exists files : list string,
        get_files_in_directory p w
        = Returned files (noted [DirectoryIterator p] w)
        /\ NoDup files
        /\ forall f, f ∈ files <->
                     fs w !! f = Some Regular /\ parent_path f = Some p
  | _ => get_files_in_directory p w = Thrown (noted [DirectoryIterator p] w)
  end.
Proof.
  intros Hq. destruct (fs w !! p) as [t|] eqn:Hp.
  - destruct t.
    + exists (regular_files p (fs w)).
      split; [by apply get_files_in_directory_quiet|].
      split; [apply regular_files_spec|]. intros f. apply elem_of_regular_files.
    + unfold get_files_in_directory, bind, filesystem.directory_iterator.
      rewrite (enter_quiet _ _ Hq). simpl. by rewrite Hp.
    + unfold get_files_in_directory, bind, filesystem.directory_iterator.
      rewrite (enter_quiet _ _ Hq). simpl. by rewrite Hp.
  - unfold get_files_in_directory, bind, filesystem.directory_iterator.
    rewrite (enter_quiet _ _ Hq). simpl. by rewrite Hp.
Qed.

Lemma get_files_in_directory_lists_witness :
  exists files : list string,
    get_files_in_directory "c:\temp\tmpabcdefgh" live_world
    = Returned files (noted [DirectoryIterator "c:\temp\tmpabcdefgh"] live_world)
    /\ NoDup files
    /\ forall f, f ∈ files <->
         fs live_world !! f = Some Regular
         /\ parent_path f = Some "c:\temp\tmpabcdefgh".
Proof.
  exact (get_files_in_directory_lists "c:\temp\tmpabcdefgh" live_world eq_refl).
Defined.

(** ** What remove answers and what it touches *)

(** X6: whenever [remove()] returns, the object is as it was, and the
    answer is [true] exactly when the handle is good and its path is a
    directory at the moment of the test. *)
Theorem remove_answer (h : directory.t) (w : world) (b : bool)
  (s' : directory.t * world) :
  directory.remove (h, w) = Returned b s' ->
  s'.1 = h
  /\ (b = true <->
      directory.good h = true
      /\ fs (enter (IsDirectory (directory.path h)) w) !! directory.path h
         = Some Directory).
Proof.
  intros Hr. split.
  { pose proof (remove_keeps_this (h, w)) as Hk. by rewrite Hr in Hk. }
  unfold directory.good, directory.path.
  destruct (directory._good h) eqn:Hg.
  - destruct (decide (fs (enter (IsDirectory (directory._path h)) w)
                        !! directory._path h = Some Directory)) as [Hd|Hd].
    + pose proof (remove_past_test h w Hg Hd) as Hp. rewrite Hr in Hp.
      destruct Hp as [-> _]. done.
    + revert Hr. unfold directory.remove, bind at 1, get_this at 1.
      cbn [fst snd]. rewrite Hg. unfold bind at 1, call at 1. cbn [fst snd].
      rewrite directory_exists_unfold, bool_decide_eq_false_2 by done.
      unfold ret. intros [= <- _]. split; [done|]. by intros [_ ?].
  - rewrite remove_invalid in Hr by done. injection Hr as <- _.
    split; [done|]. by intros [? _].
Qed.

Lemma remove_answer_witness :
  directory.remove (live_handle, live_world)
  = Returned true (live_handle, removed_world)
  /\ directory.good live_handle = true
  /\ fs (enter (IsDirectory (directory.path live_handle)) live_world)
       !! directory.path live_handle = Some Directory.
Proof.
  assert (H : directory.remove (live_handle, live_world)
              = Returned true (live_handle, removed_world))
    by (vm_compute; reflexivity).
  split; [exact H|].
  destruct (remove_answer live_handle live_world true _ H) as [_ [Hto _]].
  exact (Hto eq_refl).
Defined.

Lemma lookup_filter_outside p (m : gmap string file_type) q :
  within p q = false -> filter (outside p) m !! q = m !! q.
Proof.
  intros Hq. destruct (m !! q) as [t|] eqn:E.
  - by apply map_lookup_filter_Some_2.
  - apply map_lookup_filter_None_2. by left.
Qed.

(** X7: with no other process acting, [remove()] never throws; it leaves
    the object as it was and every entry outside the directory of the
    handle as it was, and when it answers [false] the filesystem is
    unchanged. *)
Theorem remove_is_local (h : directory.t) (w : world) :
  quiet w ->
  exists (b : bool) (w' : world),
    directory.remove (h, w) = Returned b (h, w')
    /\ quiet w'
    /\ (forall q, within (directory.path h) q = false ->
                  fs w' !! q = fs w !! q)
    /\ (b = false -> fs w' = fs w).
Proof.
  intros Hq. unfold directory.path.
  destruct (directory._good h) eqn:Hg.
  - destruct (decide (fs w !! directory._path h = Some Directory)) as [Hd|Hd].
    + eexists true, _. split; [by apply remove_quiet|].
      split; [done|]. split; [|done].
      intros q Hout. simpl. by apply lookup_filter_outside.
    + eexists false, _. split; [by apply remove_absent|]. done.
  - exists false, w. split; [by apply remove_invalid|]. done.
Qed.

Lemma remove_is_local_witness :
  exists (b : bool) (w' : world),
    directory.remove (live_handle, live_world) = Returned b (live_handle, w')
    /\ quiet w'
    /\ (forall q, within (directory.path live_handle) q = false ->
                  fs w' !! q = fs live_world !! q)
    /\ (b = false -> fs w' = fs live_world).
Proof. exact (remove_is_local live_handle live_world eq_refl). Defined.

Lemma enter_busy c w a rest :
  others w = a :: rest ->
  enter c w
  = World (apply_action a (fs w)) (env w) (entropy w) (drawn w) rest
          (journal w ++ [c]).
Proof. unfold enter. by intros ->. Qed.

(** X8: when another process deletes the directory between the existence
    test of [remove()] and the listing, the listing throws and so does
    [remove()], with nothing more asked of the filesystem. *)
Theorem remove_throws_when_directory_vanishes
  (h : directory.t) (w : world) (rest : list action) :
  directory.good h = true ->
  others w = Idle :: ExtRemoveAll (directory.path h) :: rest ->
  fs w !! directory.path h = Some Directory ->
  directory.remove (h, w)
  = Thrown (h, World (filter (outside (directory.path h)) (fs w))
                     (env w) (entropy w) (drawn w) rest
                     (journal w ++ [IsDirectory (directory.path h);
                                    DirectoryIterator (directory.path h)])).
Proof.
  unfold directory.good, directory.path. intros Hg Ho Hd.
  unfold directory.remove, bind at 1, get_this at 1. cbn [fst snd]. rewrite Hg.
  unfold bind at 1, call at 1. cbn [fst snd].
  rewrite directory_exists_unfold, (enter_busy _ _ _ _ Ho). simpl.
  rewrite bool_decide_eq_true_2 by done.
  unfold bind at 1, call at 1. cbn [fst snd].
  unfold get_files_in_directory, bind, filesystem.directory_iterator.
  erewrite enter_busy by reflexivity. simpl.
  assert (filter (outside (directory._path h)) (fs w) !! directory._path h
          = None) as ->.
  { apply map_lookup_filter_None. right. intros x _.
    unfold outside. simpl. by rewrite within_self. }
  simpl. by rewrite <- app_assoc.
Qed.

Lemma remove_throws_when_directory_vanishes_witness :
  directory.remove (live_handle, vanishing_world)
  = Thrown
      (live_handle,
       World (filter (outside (directory.path live_handle)) (fs vanishing_world))
             (env vanishing_world) (entropy vanishing_world)
             (drawn vanishing_world) []
             (journal vanishing_world
              ++ [IsDirectory (directory.path live_handle);
                  DirectoryIterator (directory.path live_handle)])).
Proof.
  assert (Hd : fs vanishing_world !! directory.path live_handle
               = Some Directory) by (vm_compute; reflexivity).
  exact (remove_throws_when_directory_vanishes live_handle vanishing_world []
           eq_refl eq_refl Hd).
Defined.

(** ** What create and remove ask of the filesystem *)

Lemma final_bind {S A B} (m : M S A) (k : A -> M S B) (s : S) :
  final (bind m k s)
  = match m s with
    | Returned a s' => final (k a s')
    | Thrown s' => s'
    end.
Proof. unfold bind. by destruct (m s). Qed.

Lemma final_call {T A} (m : M world A) (h : T) (w : world) :
  final (call m (h, w)) = (h, final (m w)).
Proof. unfold call. simpl. by destruct (m w). Qed.

Lemma frame_refl P w : frame P w w.
Proof. split; [|done]. exists []. by rewrite app_nil_r. Qed.

Lemma frame_trans P w1 w2 w3 : frame P w1 w2 -> frame P w2 w3 -> frame P w1 w3.
Proof.
  intros [(c1 & E1 & F1) [Ee1 Er1]] [(c2 & E2 & F2) [Ee2 Er2]].
  split; [|split; congruence]. exists (c1 ++ c2).
  split; [by rewrite E2, E1, app_assoc|by apply Forall_app].
Qed.

Lemma frame_enter (P : syscall -> Prop) c w : P c -> frame P w (enter c w).
Proof.
  intros Hc. unfold enter. destruct (others w); (split; [|done]);
    exists [c]; (split; [done|by constructor]).
Qed.

Lemma frame_same P w w' :
  journal w' = journal w -> env w' = env w -> entropy w' = entropy w ->
  frame P w w'.
Proof. intros Ej ??. split; [|done]. exists []. by rewrite app_nil_r. Qed.

Lemma frame_advance P k w : frame P w (advance k w).
Proof. by apply frame_same. Qed.

Lemma make_directory_frame p w :
  frame creation_call w (final (make_directory p w)).
Proof.
  unfold make_directory, filesystem.create_directory.
  pose proof (frame_enter creation_call (CreateDirectory p) w I) as He.
  destruct (fs (enter (CreateDirectory p) w) !! p) as [[]|]; try done.
  destruct (filesystem.parent_is_directory _ _); [|done].
  eapply frame_trans; [exact He|]. by apply frame_same.
Qed.

Lemma attempts_frame n : forall base h w,
  frame creation_call w (final (directory.attempts n base (h, w))).2.
Proof.
  induction n as [|n IH]; intros base h w.
  - apply frame_refl.
  - cbn [directory.attempts]. unfold bind at 1, call at 1. cbn [fst snd].
    rewrite random_name_closed.
    unfold bind at 1, get_this at 1. cbn [fst snd].
    pose proof (frame_advance creation_call 8 w) as H8.
    destruct (_ <? _)%nat.
    { eapply frame_trans; [exact H8|apply IH]. }
    unfold bind at 1, call at 1. cbn [fst snd].
    rewrite directory_exists_unfold.
    match goal with |- context [enter ?c (advance 8 w)] =>
      pose proof (frame_enter creation_call c (advance 8 w) I) as He
    end.
    destruct (bool_decide _).
    { eapply frame_trans; [exact H8|]. eapply frame_trans; [exact He|apply IH]. }
    unfold bind at 1, call at 1. cbn [fst snd].
    match goal with |- context [make_directory ?p ?w1] =>
      pose proof (make_directory_frame p w1) as Hmk;
      destruct (make_directory p w1) as [[] w2|w2]
    end; simpl in Hmk.
    + unfold bind, set_this, ret; cbn [fst snd final].
      eauto using frame_trans.
    + eapply frame_trans; [exact H8|]. eapply frame_trans; [exact He|].
      eapply frame_trans; [exact Hmk|apply IH].
    + cbn [fst snd final]. eauto using frame_trans.
Qed.

Lemma over_paths_frame paths : forall h w,
  frame creation_call w (final (directory.over_paths paths (h, w))).2.
Proof.
  induction paths as [|base rest IH]; intros h w.
  - apply frame_refl.
  - cbn [directory.over_paths]. rewrite final_bind.
    pose proof (attempts_frame 100 base h w) as Ha.
    destruct (directory.attempts 100 base (h, w)) as [[] [h1 w1]|[h1 w1]];
      simpl in Ha; [done| |done].
    eapply frame_trans; [exact Ha|apply IH].
Qed.

(** X9: whatever the world does, [create()] only asks the filesystem
    whether directories exist and to make directories: it never lists or
    removes anything, and it leaves the environment as it is. *)
Theorem create_only_tests_and_makes (h : directory.t) (w : world) :
  let w' := (final (directory.create (h, w))).2 in
  (exists calls : list syscall,
     journal w' = journal w ++ calls
     /\ Forall (fun c => exists p, c = IsDirectory p \/ c = CreateDirectory p)
               calls)
  /\ env w' = env w.
Proof.
  cbn zeta.
  assert (Hf : frame creation_call w (final (directory.create (h, w))).2).
  { unfold directory.create. rewrite final_bind. unfold get_this at 1.
    cbn [fst snd]. destruct (_ && _); [apply frame_refl|].
    rewrite final_bind. unfold call at 1. cbn [fst snd].
    rewrite paths_to_try_closed. apply over_paths_frame. }
  destruct Hf as [(calls & Ej & Hall) [Ee _]]. split; [|done].
  exists calls. split; [done|].
  eapply Forall_impl; [exact Hall|]. intros [] Hc; try done; eauto.
Qed.

Lemma remove_file_frame p f w :
  parent_path f = Some p ->
  frame (removal_call_on p) w (final (remove_file f w)).
Proof.
  intros Hf. unfold remove_file, filesystem.remove.
  pose proof (frame_enter (removal_call_on p) (RemoveEntry f) w Hf) as He.
  destruct (fs (enter (RemoveEntry f) w) !! f) as [[]|]; try done;
    try (eapply frame_trans; [exact He|]; by apply frame_same).
  destruct (bool_decide _); [|done].
  eapply frame_trans; [exact He|]. by apply frame_same.
Qed.

Lemma remove_files_frame {T} p (h : T) (files : list string) : forall w,
  (forall f, f ∈ files -> parent_path f = Some p) ->
  frame (removal_call_on p) w
    (final (for_each files
              (fun file_path => call (remove_file file_path) ;;; ret tt)
              (h, w))).2.
Proof.
  induction files as [|f files IH]; intros w Hall.
  - apply frame_refl.
  - cbn [for_each]. rewrite final_bind.
    pose proof (remove_file_frame p f w (Hall f ltac:(by left))) as Hf.
    unfold bind at 1, call at 1. cbn [fst snd].
    destruct (remove_file f w) as [b w1|w1]; simpl in Hf; [|done].
    unfold ret at 1.
    eapply frame_trans; [exact Hf|]. apply IH.
    intros f' Hf'. apply Hall. by right.
Qed.

Lemma remove_directory_frame p w :
  frame (removal_call_on p) w (final (remove_directory p w)).
Proof.
  unfold remove_directory, filesystem.remove_all, bind, ret.
  pose proof (frame_enter (removal_call_on p) (RemoveAll p) w eq_refl) as He.
  destruct (fs (enter (RemoveAll p) w) !! p); [|done].
  eapply frame_trans; [exact He|]. by apply frame_same.
Qed.

(** X10: whatever the world does, every call [remove()] makes concerns
    its own directory: the existence test, the listing and the recursive
    removal name the path of the handle, and every single removal names an
    entry directly inside it.  The environment is left as it is. *)
Theorem remove_only_touches_its_directory (h : directory.t) (w : world) :
  let w' := (final (directory.remove (h, w))).2 in
  let p := directory.path h in
  (exists calls : list syscall,
     journal w' = journal w ++ calls
     /\ Forall (fun c => c = IsDirectory p \/ c = DirectoryIterator p
                         \/ c = RemoveAll p
                         \/ exists f, c = RemoveEntry f
                                      /\ parent_path f = Some p) calls)
  /\ env w' = env w.
Proof.
  cbn zeta. unfold directory.path. set (p := directory._path h).
  assert (Hf : frame (removal_call_on p) w
                 (final (directory.remove (h, w))).2).
  { unfold directory.remove. rewrite final_bind. unfold get_this at 1.
    cbn [fst snd]. fold p. rewrite final_bind.
    destruct (directory._good h); [|apply frame_refl].
    unfold call at 1. cbn [fst snd]. rewrite directory_exists_unfold.
    pose proof (frame_enter (removal_call_on p) (IsDirectory p) w eq_refl)
      as H1.
    destruct (bool_decide _); [|done].
    rewrite final_bind. unfold call at 1. cbn [fst snd].
    unfold get_files_in_directory, bind at 1, filesystem.directory_iterator.
    set (w1 := enter (IsDirectory p) w) in *.
    pose proof (frame_enter (removal_call_on p) (DirectoryIterator p) w1
                  eq_refl) as H2.
    set (w2 := enter (DirectoryIterator p) w1) in *.
    assert (H12 : frame (removal_call_on p) w w2)
      by (eapply frame_trans; eassumption).
    destruct (fs w2 !! p) as [[]|]; try done.
    rewrite collect_regular. simpl app.
    rewrite final_bind.
    pose proof (remove_files_frame p h (regular_files p (fs w2)) w2
                  (fun f Hf => proj2 (proj1 (elem_of_regular_files p _ f) Hf)))
      as H3.
    unfold regular_files in H3 at 1.
    destruct (for_each _ _ (h, w2)) as [[] [h3 w3]|[h3 w3]]; simpl in H3;
      [|by eapply frame_trans].
    rewrite final_bind. 
    pose proof (remove_directory_frame p w3) as H4.
    unfold call. cbn [fst snd].
    destruct (remove_directory p w3) as [b4 w4|w4]; simpl in H4;
      unfold ret; cbn [final snd];
      eapply frame_trans; [exact H12| |exact H12|];
      eapply frame_trans; eassumption. }
  destruct Hf as [(calls & Ej & Hall) [Ee _]]. split; [|done].
  exists calls. split; [done|].
  eapply Forall_impl; [exact Hall|]. intros [] Hc; simpl in Hc; try done;
    subst; eauto 6.
Qed.

(** ** What create does to the filesystem *)

Lemma make_directory_quiet p w :
  quiet w ->
  match make_directory p w with
  | Returned true w' =>
      quiet w' /\ fs w !! p = None /\ fs w' = <[p := Directory]> (fs w)
  | Returned false w' => quiet w' /\ fs w' = fs w
  | Thrown w' => quiet w' /\ fs w' = fs w
  end.
Proof.
  intros Hq. unfold make_directory, filesystem.create_directory.
  rewrite (enter_quiet _ _ Hq). simpl.
  destruct (fs w !! p) as [[]|]; try done.
  by destruct (filesystem.parent_is_directory _ _).
Qed.

Lemma attempts_fs_quiet n : forall base h w,
  quiet w ->
  match directory.attempts n base (h, w) with
  | Returned true (h', w') =>
      quiet w' /\ fs w !! directory._path h' = None
      /\ fs w' = <[directory._path h' := Directory]> (fs w)
  | Returned false (_, w') => quiet w' /\ fs w' = fs w
  | Thrown (_, w') => quiet w' /\ fs w' = fs w
  end.
Proof.
  induction n as [|n IH]; intros base h w Hq.
  - done.
  - cbn [directory.attempts]. unfold bind at 1, call at 1. cbn [fst snd].
    rewrite random_name_closed.
    unfold bind at 1, get_this at 1. cbn [fst snd].
    destruct (_ <? _)%nat.
    { apply (IH base h (advance 8 w)). done. }
    unfold bind at 1, call at 1. cbn [fst snd].
    rewrite directory_exists_unfold, enter_quiet by done.
    destruct (bool_decide _).
    { apply (IH base h (noted _ (advance 8 w))). done. }
    unfold bind at 1, call at 1. cbn [fst snd].
    match goal with |- context [make_directory ?p ?w1] =>
      pose proof (make_directory_quiet p w1 Hq) as Hmk;
      destruct (make_directory p w1) as [[] w2|w2]
    end; simpl in Hmk.
    + unfold bind, set_this, ret; cbn [fst snd]. done.
    + destruct Hmk as [Hq2 Hfs]. specialize (IH base h w2 Hq2).
      destruct (directory.attempts n base (h, w2)) as [[] [h' w']|[h' w']];
        by rewrite Hfs in IH.
    + done.
Qed.

Lemma over_paths_fs_quiet paths : forall h w,
  quiet w ->
  match directory.over_paths paths (h, w) with
  | Returned true (h', w') =>
      quiet w' /\ fs w !! directory._path h' = None
      /\ fs w' = <[directory._path h' := Directory]> (fs w)
  | Returned false (_, w') => quiet w' /\ fs w' = fs w
  | Thrown (_, w') => quiet w' /\ fs w' = fs w
  end.
Proof.
  induction paths as [|base rest IH]; intros h w Hq.
  - done.
  - cbn [directory.over_paths]. unfold bind at 1.
    pose proof (attempts_fs_quiet 100 base h w Hq) as Ha.
    destruct (directory.attempts 100 base (h, w)) as [[] [h1 w1]|[h1 w1]];
      [done| |done].
    destruct Ha as [Hq1 Hfs]. specialize (IH h1 w1 Hq1).
    destruct (directory.over_paths rest (h1, w1)) as [[] [h' w']|[h' w']];
      by rewrite Hfs in IH.
Qed.

(** X11: with no other process acting, a [create()] that returns [true]
    has added exactly one entry to the filesystem, a directory at the new
    path of the handle, where nothing was before; a [create()] that
    returns [false] or throws leaves the filesystem as it was. *)
Theorem create_makes_one_directory (h : directory.t) (w : world) :
  quiet w ->
  match directory.create (h, w) with
  | Returned true (h', w') =>
      fs w !! directory.path h' = None
      /\ fs w' = <[directory.path h' := Directory]> (fs w)
  | Returned false (_, w') => fs w' = fs w
  | Thrown (_, w') => fs w' = fs w
  end.
Proof.
  intros Hq. unfold directory.create, bind at 1, get_this at 1. cbn [fst snd].
  destruct (_ && _); [done|].
  unfold bind at 1, call at 1. cbn [fst snd]. rewrite paths_to_try_closed.
  pose proof (over_paths_fs_quiet (candidates (env w)) h w Hq) as Hp.
  destruct (directory.over_paths _ _) as [[] [h' w']|[h' w']]; tauto.
Qed.

Lemma create_makes_one_directory_witness :
  directory.create (directory.ctor "tmp", calm_world)
  = Returned true (live_handle, created_world)
  /\ fs calm_world !! directory.path live_handle = None
  /\ fs created_world = <[directory.path live_handle := Directory]> (fs calm_world).
Proof.
  assert (Hc : directory.create (directory.ctor "tmp", calm_world)
               = Returned true (live_handle, created_world))
    by (vm_compute; reflexivity).
  split; [exact Hc|].
  pose proof (create_makes_one_directory (directory.ctor "tmp") calm_world
                eq_refl) as H.
  rewrite Hc in H. exact H.
Defined.

(** ** The first candidate *)

Lemma parent_path_free leaf : separator_free leaf = true -> parent_path leaf = None.
Proof.
  induction leaf as [|c r IH]; simpl; [done|].
  intros [Hc Hr]%andb_true_iff. rewrite (IH Hr).
  by destruct (Ascii.eqb c separator_char).
Qed.

Lemma parent_path_candidate base leaf :
  separator_free leaf = true ->
  parent_path (base +:+ path_separator +:+ leaf) = Some base.
Proof.
  intros Hl. induction base as [|c b IH].
  - change ("" +:+ path_separator +:+ leaf) with (String separator_char leaf).
    simpl. by rewrite (parent_path_free _ Hl).
  - rewrite string_app_cons. simpl. by rewrite IH.
Qed.

Lemma separator_free_app s t :
  separator_free (s +:+ t) = separator_free s && separator_free t.
Proof.
  induction s as [|c s IH]; [done|].
  rewrite string_app_cons. simpl. by rewrite IH, andb_assoc.
Qed.

Lemma lower_or_digit_not_separator c :
  lower_or_digit c = true -> Ascii.eqb c separator_char = false.
Proof.
  intros Hc. destruct (Ascii.eqb_spec c separator_char) as [->|]; [|done].
  discriminate Hc.
Qed.

Lemma separator_free_name_drawn w i : separator_free (name_drawn w i) = true.
Proof.
  unfold name_drawn. generalize (seq (8 * i) 8) as l.
  induction l as [|j l IH]; simpl; [done|].
  by rewrite (lower_or_digit_not_separator _ (picked_lower_or_digit w j)), IH.
Qed.

Lemma parent_path_tried base prefix w i :
  separator_free prefix = true ->
  parent_path (path_tried base prefix w i) = Some base.
Proof.
  intros Hp. unfold path_tried. apply parent_path_candidate.
  by rewrite separator_free_app, Hp, separator_free_name_drawn.
Qed.

Lemma string_length_name_drawn w i : String.length (name_drawn w i) = 8.
Proof.
  unfold name_drawn.
  by rewrite length_string_of_list_ascii, length_map, length_seq.
Qed.

(** The first attempt under a base, when the path fits and is free. *)
Lemma attempts_first_try n base h w :
  quiet w ->
  String.length base + String.length path_separator
  + String.length (directory._prefix h) + 8 + 1 <= max_path_length ->
  separator_free (directory._prefix h) = true ->
  fs w !! path_tried base (directory._prefix h) w 0 = None ->
  let p := path_tried base (directory._prefix h) w 0 in
  let w1 := noted [IsDirectory p; CreateDirectory p] (advance 8 w) in
  directory.attempts (S n) base (h, w)
  = if bool_decide (base = "" \/ fs w !! base = Some Directory)
    then Returned true
           (directory.Build true (directory._prefix h) p,
            set_fs (<[p := Directory]> (fs w)) w1)
    else Thrown (h, w1).
Proof.
  intros Hq Hfit Hfree Hnone p w1. fold p in Hnone.
  cbn [directory.attempts]. unfold bind at 1, call at 1. cbn [fst snd].
  rewrite random_name_drawn.
  unfold bind at 1, get_this at 1. cbn [fst snd].
  rewrite string_length_name_drawn.
  destruct (Nat.ltb_spec max_path_length
    (String.length base + String.length path_separator
     + String.length (directory._prefix h) + 8 + 1)) as [?|_]; [lia|].
  unfold bind at 1, call at 1. cbn [fst snd].
  fold (path_tried base (directory._prefix h) w 0). fold p.
  rewrite directory_exists_unfold, enter_quiet by done. simpl.
  rewrite bool_decide_eq_false_2 by (by rewrite Hnone).
  unfold bind at 1, call at 1. cbn [fst snd].
  unfold make_directory, filesystem.create_directory.
  rewrite enter_quiet by done. simpl. rewrite Hnone.
  unfold filesystem.parent_is_directory.
  unfold p at 1. rewrite parent_path_tried by done. fold p.
  assert (Hw1 : noted [CreateDirectory p] (noted [IsDirectory p] (advance 8 w))
                = w1).
  { unfold w1, noted; simpl. by rewrite <- app_assoc. }
  destruct base as [|c b].
  - rewrite bool_decide_eq_true_2 by (by left).
    unfold bind, set_this, ret; cbn [fst snd]. by rewrite <- Hw1.
  - simpl. destruct (decide (fs w !! String c b = Some Directory)) as [Hb|Hb].
    + rewrite !bool_decide_eq_true_2 by auto.
      unfold bind, set_this, ret; cbn [fst snd]. by rewrite <- Hw1.
    + rewrite !bool_decide_eq_false_2 by (try done; intros [?|?]; done).
      by rewrite <- Hw1.
Qed.

Lemma candidates_start_with_TEMP e base :
  e !! "TEMP" = Some base -> exists rest, candidates e = base :: rest.
Proof.
  intros He. unfold candidates, temp_variables.
  cbn [omap list_omap]. rewrite He. eexists. reflexivity.
Qed.

Lemma name_drawn_advance_many k w i :
  name_drawn (advance (8 * k) w) i = name_drawn w (k + i).
Proof.
  unfold name_drawn. f_equal.
  replace (8 * (k + i)) with (8 * k + 8 * i) by lia.
  rewrite <- (fmap_add_seq (8 * k)), <- list_fmap_compose.
  apply list_fmap_ext. intros _ j _. apply picked_advance.
Qed.

(** Names that are taken are passed over, one existence test each. *)
Lemma attempts_skip_taken k : forall n base h w,
  quiet w ->
  String.length base + String.length path_separator
  + String.length (directory._prefix h) + 8 + 1 <= max_path_length ->
  (forall i, i < k ->
     fs w !! path_tried base (directory._prefix h) w i = Some Directory) ->
  directory.attempts (k + n) base (h, w)
  = directory.attempts n base
      (h, noted (map (fun i => IsDirectory
                                 (path_tried base (directory._prefix h) w i))
                     (seq 0 k))
                (advance (8 * k) w)).
Proof.
  induction k as [|k IH]; intros n base h w Hq Hfit Htaken.
  - simpl. by rewrite advance_0, noted_nil.
  - change (S k + n) with (S (k + n)).
    cbn [directory.attempts]. unfold bind at 1, call at 1. cbn [fst snd].
    rewrite random_name_drawn.
    unfold bind at 1, get_this at 1. cbn [fst snd].
    rewrite string_length_name_drawn.
    destruct (Nat.ltb_spec max_path_length
      (String.length base + String.length path_separator
       + String.length (directory._prefix h) + 8 + 1)) as [?|_]; [lia|].
    unfold bind at 1, call at 1. cbn [fst snd].
    rewrite directory_exists_unfold, enter_quiet by done. simpl.
    fold (path_tried base (directory._prefix h) w 0).
    rewrite bool_decide_eq_true_2 by (apply Htaken; lia).
    rewrite IH; [|done|done|].
    + do 2 f_equal. unfold noted, advance; simpl. f_equal; [lia|].
      rewrite <- app_assoc. simpl. do 2 f_equal.
      rewrite <- seq_shift, map_map. apply map_ext. intros i.
      unfold path_tried. do 4 f_equal. rewrite <- name_drawn_advance.
      by apply name_drawn_ext.
    + intros i Hi. simpl. unfold path_tried.
      rewrite (name_drawn_ext _ (advance 8 w)), name_drawn_advance by done.
      apply Htaken. lia.
Qed.

Lemma portable_char_not_separator c :
  portable_char c = true -> Ascii.eqb c separator_char = false.
Proof.
  intros Hc. destruct (Ascii.eqb_spec c separator_char) as [->|]; [|done].
  discriminate Hc.
Qed.

Lemma portable_name_separator_free s :
  portable_name s = true -> separator_free s = true.
Proof.
  induction s as [|c r IH]; simpl; [done|].
  intros [Hc Hr]%andb_true_iff.
  by rewrite (portable_char_not_separator _ Hc), IH.
Qed.

(** X12: with no other process acting, when [TEMP] names an existing
    directory, the prefix is made of letters, digits, [_] and [-] only
    (so neither separator of the platform occurs in it), the path fits,
    the first [k] names drawn (fewer than 100) are taken there by
    directories and the next one is free, [create()] succeeds under
    [TEMP] with that next name: it asks once about each taken name, then
    about the free one, creates it, and the handle is good with that
    path. *)
Theorem create_retries_past_taken_names
  (h : directory.t) (w : world) (base : string) (k : nat) :
  directory.good h = false ->
  quiet w ->
  env w !! "TEMP" = Some base ->
  fs w !! base = Some Directory ->
  portable_name (directory._prefix h) = true ->
  String.length base + String.length path_separator
  + String.length (directory._prefix h) + 8 + 1 <= max_path_length ->
  k < 100 ->
  (forall i, i < k ->
     fs w !! path_tried base (directory._prefix h) w i = Some Directory) ->
  fs w !! path_tried base (directory._prefix h) w k = None ->
  let tried := path_tried base (directory._prefix h) w in
  directory.create (h, w)
  = Returned true
      (directory.Build true (directory._prefix h) (tried k),
       set_fs (<[tried k := Directory]> (fs w))
              (noted (map (fun i => IsDirectory (tried i)) (seq 0 k)
                      ++ [IsDirectory (tried k); CreateDirectory (tried k)])
                     (advance (8 * S k) w))).
Proof.
  intros Hg Hq Henv Hbase Hport Hfit Hk Htaken Hnone tried.
  pose proof (portable_name_separator_free _ Hport) as Hfree.
  rewrite create_unfold_fresh by done.
  destruct (candidates_start_with_TEMP _ _ Henv) as [rest ->].
  cbn [directory.over_paths]. unfold bind at 1.
  replace (directory.attempts 100 base (h, w))
    with (directory.attempts (k + S (99 - k)) base (h, w))
    by (f_equal; lia).
  rewrite attempts_skip_taken by done.
  set (wk := noted _ (advance (8 * k) w)).
  assert (Hsame : path_tried base (directory._prefix h) wk 0 = tried k).
  { unfold tried, path_tried. do 3 f_equal.
    rewrite (name_drawn_ext wk (advance (8 * k) w)) by done.
    rewrite name_drawn_advance_many. f_equal. lia. }
  assert (Hnonek : fs wk !! path_tried base (directory._prefix h) wk 0 = None)
    by (rewrite Hsame; exact Hnone).
  rewrite (attempts_first_try (99 - k) base h wk Hq Hfit Hfree Hnonek).
  rewrite bool_decide_eq_true_2 by auto. rewrite Hsame.
  unfold ret. do 3 f_equal.
  unfold wk, noted, advance; simpl. f_equal; [lia|].
  by rewrite <- app_assoc.
Qed.

Lemma create_retries_past_taken_names_witness :
  let tried := path_tried "c:\temp" "tmp" taken_world in
  tried 0 = "c:\temp\tmpabcdefgh" /\ tried 1 = "c:\temp\tmpijklmnop"
  /\ directory.create (directory.ctor default_prefix, taken_world)
     = Returned true
         (directory.Build true "tmp" (tried 1),
          set_fs (<[tried 1 := Directory]> (fs taken_world))
                 (noted (map (fun i => IsDirectory (tried i)) (seq 0 1)
                         ++ [IsDirectory (tried 1); CreateDirectory (tried 1)])
                        (advance (8 * 2) taken_world))).
Proof.
  split; [vm_compute; reflexivity|]. split; [vm_compute; reflexivity|].
  assert (Hfit : String.length "c:\temp" + String.length path_separator
                 + String.length "tmp" + 8 + 1 <= max_path_length)
    by (vm_compute; lia).
  assert (Htaken : forall i, i < 1 ->
            fs taken_world !! path_tried "c:\temp" "tmp" taken_world i
            = Some Directory).
  { intros i Hi. assert (i = 0) as -> by lia. vm_compute. reflexivity. }
  assert (Hnone : fs taken_world !! path_tried "c:\temp" "tmp" taken_world 1
                  = None) by (vm_compute; reflexivity).
  assert (Hk : 1 < 100) by lia.
  exact (create_retries_past_taken_names (directory.ctor default_prefix)
           taken_world "c:\temp" 1 eq_refl eq_refl eq_refl eq_refl eq_refl
           Hfit Hk Htaken Hnone).
Defined.



(** ** A handle is created once *)

Lemma invoke_on_owner (m : method) (h : directory.t) (w : world) :
  directory.good h = true -> directory.path h <> "" ->
  (final (invoke m (h, w))).1 = h.
Proof.
  intros Hg Hp. destruct m; simpl.
  - by rewrite create_unfold_valid.
  - apply (remove_keeps_this (h, w)).
Qed.

Lemma handle_after_owner (calls : list (method * world)) (h : directory.t) :
  directory.good h = true -> directory.path h <> "" ->
  handle_after calls h = h.
Proof.
  intros Hg Hp. induction calls as [|[m w] calls IH]; simpl; [done|].
  by rewrite invoke_on_owner.
Qed.

Lemma handle_after_app (calls1 calls2 : list (method * world)) : forall h,
  handle_after (calls1 ++ calls2) h = handle_after calls2 (handle_after calls1 h).
Proof.
  induction calls1 as [|[m w] calls1 IH]; intros h; simpl; [done|]. apply IH.
Qed.

Lemma handle_after_invariant (calls : list (method * world)) : forall h,
  (directory.good h = true -> directory.path h <> "") ->
  directory.good (handle_after calls h) = true ->
  directory.path (handle_after calls h) <> "".
Proof.
  induction calls as [|[m w] calls IH]; intros h Hinv; simpl; [done|].
  apply IH. by apply invoke_keeps_invariant.
Qed.

(** X14: once a handle is good, no series of [create()] and [remove()]
    calls changes it, in whatever worlds they are made: [path()] and
    [good()] stay what the one successful [create()] made them, also after
    the directory has been removed, so a handle is never created twice. *)
Theorem handle_is_created_once
  (prefix : string) (calls1 calls2 : list (method * world)) :
  directory.good (handle_after calls1 (directory.ctor prefix)) = true ->
  handle_after (calls1 ++ calls2) (directory.ctor prefix)
  = handle_after calls1 (directory.ctor prefix).
Proof.
  intros Hg. rewrite handle_after_app. apply handle_after_owner; [done|].
  by apply handle_after_invariant.
Qed.

Lemma handle_is_created_once_witness :
  directory.good (handle_after [(Create, calm_world)] (directory.ctor "tmp"))
  = true
  /\ handle_after ([(Create, calm_world)]
                   ++ [(Remove, created_world); (Create, removed_world)])
       (directory.ctor "tmp")
     = handle_after [(Create, calm_world)] (directory.ctor "tmp").
Proof.
  assert (Hg : directory.good
                 (handle_after [(Create, calm_world)] (directory.ctor "tmp"))
               = true) by (vm_compute; reflexivity).
  split; [exact Hg|].
  exact (handle_is_created_once "tmp" [(Create, calm_world)]
           [(Remove, created_world); (Create, removed_world)] Hg).
Defined.

(** ** A scoped directory leaves no trace *)

Lemma prefix_cons a s1 b s2 :
  String.prefix (String a s1) (String b s2)
  = if ascii_dec a b then String.prefix s1 s2 else false.
Proof. reflexivity. Qed.

Lemma above_spec (s : string) : forall p,
  String.prefix (p +:+ path_separator) s = true -> In p (above s).
Proof.
  induction s as [|c r IH]; intros p.
  - destruct p; discriminate.
  - cbn [above]. destruct p as [|a p'].
    + change ("" +:+ path_separator) with (String separator_char "").
      rewrite prefix_cons.
      destruct (ascii_dec separator_char c) as [<-|]; [|discriminate].
      intros _. rewrite Ascii.eqb_refl. by left.
    + rewrite string_app_cons, prefix_cons.
      destruct (ascii_dec a c) as [->|]; [|discriminate].
      intros Hp. apply in_or_app. right. apply in_map. by apply IH.
Qed.

(** In a tree-like namespace nothing lies within a missing path. *)
Lemma tree_like_nothing_within (m : gmap string file_type) (p q : string) :
  tree_like m -> p <> "" -> m !! p = None -> within p q = true -> m !! q = None.
Proof.
  intros Ht Hne Hp Hw. unfold within in Hw.
  apply orb_true_iff in Hw as [He|Hpre].
  - apply String.eqb_eq in He. by subst q.
  - destruct (m !! q) as [t|] eqn:Hq; [|done].
    pose proof (map_Forall_lookup_1 _ _ _ _ Ht Hq) as Hall. simpl in Hall.
    rewrite Forall_forall in Hall.
    destruct (Hall p) as [?|Hd]; [|done|congruence].
    apply list_elem_of_In. by apply above_spec.
Qed.

(** X15: a scoped directory leaves no trace.  When it is constructed with
    no other process acting in a tree-like filesystem and its handle is
    good, and it is destroyed with no other process acting while its
    directory still exists and whatever was done in between changed
    entries only within that directory, the destructor returns and the
    filesystem is what it was before the construction. *)
Theorem scoped_directory_leaves_no_trace
  (prefix : string) (w w' : world) (h : directory.t) (wd : world) :
  quiet w -> tree_like (fs w) ->
  scoped_directory.ctor prefix w = Returned h w' ->
  directory.good h = true ->
  quiet wd ->
  fs wd !! directory.path h = Some Directory ->
  (forall q, within (directory.path h) q = false -> fs wd !! q = fs w' !! q) ->
  exists wf : world,
    scoped_directory.dtor (h, wd) = Returned tt (h, wf) /\ fs wf = fs w.
Proof.
  unfold directory.good, directory.path.
  intros Hq Ht Hc Hg Hqd Hd Hsame. set (p := directory._path h) in *.
  (* what the construction did *)
  assert (Hmade : p <> "" /\ fs w !! p = None
                  /\ fs w' = <[p := Directory]> (fs w)).
  { unfold scoped_directory.ctor in Hc.
    destruct (directory.create (directory.ctor prefix, w))
      as [b [h1 w1]|[h1 w1]] eqn:Ec; [|done].
    simpl in Hc. injection Hc as -> ->.
    pose proof (over_paths_post (candidates (env w)) (directory.ctor prefix) w)
      as Hp.
    pose proof (over_paths_fs_quiet (candidates (env w))
                  (directory.ctor prefix) w Hq) as Hfs.
    rewrite <- create_unfold_fresh, Ec in Hp, Hfs by done.
    destruct b.
    - destruct Hp as [(base & _ & name & Hh & _) _].
      split; [|by destruct Hfs as (_ & ? & ?)].
      unfold p. rewrite Hh. apply created_path_non_empty.
    - destruct Hp as [Hh _]. rewrite Hh in Hg. discriminate Hg. }
  destruct Hmade as (Hne & Hnone & Hw').
  (* the teardown *)
  set (removed := set_fs (filter (outside p) (fs wd))
                         (noted (removal_calls p (fs wd)) wd)).
  assert (Hgone : fs removed !! p = None).
  { simpl. apply map_lookup_filter_None. right. intros x _.
    unfold outside. simpl. by rewrite within_self. }
  assert (H1 : directory.remove (h, wd) = Returned true (h, removed))
    by (by apply remove_quiet).
  assert (H2 : directory.remove (h, removed)
               = Returned false (h, noted [IsDirectory p] removed)).
  { apply remove_absent; [done..|]. fold p. by rewrite Hgone. }
  exists (noted [IsDirectory p] removed). split.
  { unfold scoped_directory.dtor, directory.dtor, bind. by rewrite H1, H2. }
  (* what is left *)
  simpl. apply map_eq. intros q.
  destruct (within p q) eqn:Hin.
  - rewrite (tree_like_nothing_within (fs w) p q) by done.
    apply map_lookup_filter_None. right. intros x _.
    unfold outside. simpl. by rewrite Hin.
  - rewrite lookup_filter_outside, Hsame, Hw' by done.
    apply lookup_insert_ne. intros ->. by rewrite within_self in Hin.
Qed.

Lemma scoped_directory_leaves_no_trace_witness :
  exists wf : world,
    scoped_directory.dtor (live_handle, used_world)
    = Returned tt (live_handle, wf)
    /\ fs wf = fs rooted_world.
Proof.
  assert (Ht : tree_like (fs rooted_world))
    by (apply (bool_decide_unpack _); vm_compute; exact I).
  assert (Hc : scoped_directory.ctor "tmp" rooted_world
               = Returned live_handle
                   (set_fs (<[ "c:\temp\tmpabcdefgh" := Directory ]>
                              (fs rooted_world))
                      (noted [IsDirectory "c:\temp\tmpabcdefgh";
                              CreateDirectory "c:\temp\tmpabcdefgh"]
                             (advance 8 rooted_world))))
    by (vm_compute; reflexivity).
  assert (Hd : fs used_world !! directory.path live_handle = Some Directory)
    by (vm_compute; reflexivity).
  refine (scoped_directory_leaves_no_trace "tmp" rooted_world _ live_handle
            used_world eq_refl Ht Hc eq_refl eq_refl Hd _).
  intros q Hq.
  change (fs used_world)
    with (<[ "c:\temp\tmpabcdefgh\sub\deep.txt" := Regular ]>
           (<[ "c:\temp\tmpabcdefgh\sub" := Directory ]>
             (<[ "c:\temp\tmpabcdefgh\notes.txt" := Regular ]>
               (<[ "c:\temp\tmpabcdefgh" := Directory ]> (fs rooted_world))))).
  change (fs (set_fs ?m _)) with m.
  generalize (<[ "c:\temp\tmpabcdefgh" := Directory ]> (fs rooted_world)).
  intros m.
  rewrite lookup_insert_ne
    by (intros <-; vm_compute in Hq; discriminate Hq).
  rewrite lookup_insert_ne
    by (intros <-; vm_compute in Hq; discriminate Hq).
  rewrite lookup_insert_ne
    by (intros <-; vm_compute in Hq; discriminate Hq).
  reflexivity.
Defined.
